(** * Scene graph of the ScenesService (app/services/scenes)

    Shallow embedding of [ScenesService] together with the parts of [Scene]
    and [SceneItem] it calls.  The service state is the Vuex-style
    [IScenesState]; mutations and the rxjs subjects are threaded through a
    small state / trace / exception monad. *)

From Stdlib Require Import String List Bool Arith Lia ZArith QArith Qround.
From Stdlib Require Import ListDec HexString Ascii Permutation Lqa.
Import ListNotations.
Open Scope nat_scope.
Open Scope string_scope.

(* ------------------------------------------------------------------ *)
(** ** Data model *)

(** Crop of a scene item (the [ICrop] model). *)
Record crop := mkCrop {
  crop_top : Q;
  crop_bottom : Q;
  crop_left : Q;
  crop_right : Q
}.

(** [ITransform]: position, scale, rotation in degrees and crop. *)
Record transform := mkTransform {
  position : Q * Q;
  scale : Q * Q;
  rotation : Q;
  crop_of : crop
}.

(** The settings returned by [SceneItem.getSettings()]. *)
Record item_settings := mkSettings {
  s_transform : transform;
  s_visible : bool;
  s_locked : bool
}.

(** [ISceneItem]: a node of a scene referencing a source.  Folder nodes are
    not modelled: no operation below creates or inspects one. *)
Record item := mkItem {
  sceneItemId : string;
  sourceId : string;
  item_transform : transform;
  item_visible : bool;
  item_locked : bool
}.

(** [IScene]. *)
Record scene := mkScene {
  id : string;
  name : string;
  resourceId : string;
  nodes : list item
}.

(** [IScenesState], plus the ids registered with the sources service and
    the counter behind [ipcRenderer.sendSync('getUniqueId')]. *)
Record state := mkState {
  activeSceneId : string;
  displayOrder : list string;
  scenes : list (string * scene);   (* a JS object: keys in insertion order *)
  registered_sources : list string;
  uid : nat
}.

(** What the service makes observable: the rxjs subjects and the calls to
    external collaborators ([alert], [transitionsService.transitionTo]). *)
Inductive effect :=
| Alert (msg : string)
| TransitionTo (sceneId : string)
| SceneAdded (s : scene)
| SceneRemoved (s : scene)
| SceneSwitched (s : scene)
| ItemAdded (i : item)
| ItemRemoved (i : item)
| ItemUpdated (i : item).

(* ------------------------------------------------------------------ *)
(** ** JS objects as association lists *)

Fixpoint lookup (k : string) (m : list (string * scene)) : option scene :=
  match m with
  | [] => None
  | (k', v) :: m' => if String.eqb k k' then Some v else lookup k m'
  end.

(** [Vue.set(obj, k, v)]: overwrite in place, or append a new key. A JS
    object lists integer-like keys first, in ascending order; that order is
    not modelled, and the properties below add only generated scene ids,
    which are never integer-like, or overwrite existing keys. *)
Fixpoint vue_set (k : string) (v : scene) (m : list (string * scene))
  : list (string * scene) :=
  match m with
  | [] => [(k, v)]
  | (k', v') :: m' =>
      if String.eqb k k' then (k, v) :: m' else (k', v') :: vue_set k v m'
  end.

(** [Vue.delete(obj, k)]. *)
Definition vue_delete (k : string) (m : list (string * scene))
  : list (string * scene) :=
  filter (fun p => negb (String.eqb (fst p) k)) m.

(** lodash [without(xs, x)]. *)
Definition without (xs : list string) (x : string) : list string :=
  filter (fun y => negb (String.eqb y x)) xs.

Definition keys (m : list (string * scene)) : list string := map fst m.

(* ------------------------------------------------------------------ *)
(** ** State, trace and exception monad *)

(** [None] is a thrown exception (for instance a method call on the
    [null] that [getScene] returns for an unknown id). *)
Definition M (A : Type) := state -> option (A * state * list effect).

Definition ret {A} (a : A) : M A := fun st => Some (a, st, []).

Definition bind {A B} (m : M A) (f : A -> M B) : M B :=
  fun st =>
    match m st with
    | None => None
    | Some (a, st1, t1) =>
        match f a st1 with
        | None => None
        | Some (b, st2, t2) => Some (b, st2, (t1 ++ t2)%list)
        end
    end.

Notation "'let*' x ':=' m 'in' k" := (bind m (fun x => k))
  (at level 200, x name, m at level 100, k at level 200).
Notation "m ;; k" := (bind m (fun _ => k)) (at level 100, right associativity).

Definition get : M state := fun st => Some (st, st, []).
Definition modify (f : state -> state) : M unit := fun st => Some (tt, f st, []).
Definition emit (e : effect) : M unit := fun st => Some (tt, st, [e]).
Definition throw {A} : M A := fun _ => None.

Fixpoint forM {A} (l : list A) (f : A -> M unit) : M unit :=
  match l with
  | [] => ret tt
  | x :: l' => f x ;; forM l' f
  end.

Definition set_scenes (m : list (string * scene)) (st : state) : state :=
  mkState (activeSceneId st) (displayOrder st) m (registered_sources st) (uid st).
Definition set_displayOrder (o : list string) (st : state) : state :=
  mkState (activeSceneId st) o (scenes st) (registered_sources st) (uid st).
Definition set_activeSceneId (a : string) (st : state) : state :=
  mkState a (displayOrder st) (scenes st) (registered_sources st) (uid st).
Definition set_nodes (ns : list item) (sc : scene) : scene :=
  mkScene (id sc) (name sc) (resourceId sc) ns.

(** [ipcRenderer.sendSync('getUniqueId')]. *)
Definition getUniqueId : M string :=
  fun st => Some (HexString.of_nat (uid st),
                  mkState (activeSceneId st) (displayOrder st) (scenes st)
                          (registered_sources st) (S (uid st)), []).

(** [sourcesService.addSource(obsScene.source, name)]: the scene becomes a
    registered source under its own id. *)
Definition registerSource (sid : string) : M unit :=
  modify (fun st => mkState (activeSceneId st) (displayOrder st) (scenes st)
                            ((registered_sources st ++ [sid])%list) (uid st)).

Definition getSceneModel (sid : string) : M scene :=
  fun st => match lookup sid (scenes st) with
            | Some sc => Some (sc, st, [])
            | None => None
            end.

Definition putScene (sid : string) (sc : scene) : M unit :=
  modify (fun st => set_scenes (vue_set sid sc (scenes st)) st).

(* ------------------------------------------------------------------ *)
(** ** Scene and SceneItem

    The [Scene] and [SceneItem] classes are not part of the sources at hand;
    their operations below follow the specification (sections 3 and 4). *)

(** JS [a % b] (sign of the dividend) on exact rationals. *)
Definition js_trunc (q : Q) : Z := if Qle_bool 0 q then Qfloor q else Qceiling q.
Definition js_mod (a b : Q) : Q := (a - b * inject_Z (js_trunc (a / b)))%Q.

(** [Math.round]: the nearest integer, halves rounded up. *)
Definition js_round (q : Q) : Z := Qfloor (q + (1 # 2))%Q.

Definition default_transform : transform :=
  mkTransform (0%Q, 0%Q) (1%Q, 1%Q) 0%Q (mkCrop 0%Q 0%Q 0%Q 0%Q).

Record crop_patch := mkCropPatch {
  p_top : option Q;
  p_bottom : option Q;
  p_left : option Q;
  p_right : option Q
}.

(** [IPartialTransform]: omitted fields are [None]. *)
Record transform_patch := mkPatch {
  p_position : option (Q * Q);
  p_scale : option (Q * Q);
  p_rotation : option Q;
  p_crop : option crop_patch
}.

Definition or_keep {A} (o : option A) (old : A) : A :=
  match o with Some x => x | None => old end.

(** Modelled from the spec: rotation normalisation of
    [SceneItem.setTransform], [((r % 360) + 360) % 360]. *)
Definition normalize_rotation (r : Q) : Q :=
  js_mod (js_mod r 360 + 360)%Q 360.

(** Modelled from the spec: a crop field is clamped to [>= 0] and rounded
    to the nearest integer when it is written. *)
Definition normalize_crop_field (x : Q) : Q :=
  inject_Z (js_round (if Qle_bool 0 x then x else 0%Q)).

Definition apply_crop_patch (p : crop_patch) (c : crop) : crop :=
  mkCrop (or_keep (option_map normalize_crop_field (p_top p)) (crop_top c))
         (or_keep (option_map normalize_crop_field (p_bottom p)) (crop_bottom c))
         (or_keep (option_map normalize_crop_field (p_left p)) (crop_left c))
         (or_keep (option_map normalize_crop_field (p_right p)) (crop_right c)).

(** Modelled from the spec: [SceneItem.setTransform(patch)] merges the
    given fields into the stored transform (partial update). *)
Definition apply_patch (p : transform_patch) (t : transform) : transform :=
  mkTransform (or_keep (p_position p) (position t))
              (or_keep (p_scale p) (scale t))
              (or_keep (option_map normalize_rotation (p_rotation p)) (rotation t))
              (match p_crop p with
               | Some cp => apply_crop_patch cp (crop_of t)
               | None => crop_of t
               end).

(** [Scene.getItems()]. *)
Definition getItems (sid : string) : M (list item) :=
  let* sc := getSceneModel sid in ret (nodes sc).

(** A source is a nested scene when its id is the id of a scene. *)
Definition is_scene (st : state) (sid : string) : bool :=
  match lookup sid (scenes st) with Some _ => true | None => false end.

(** The scenes referenced by the nodes of scene [a]. *)
Definition childScenes (st : state) (a : string) : list string :=
  match lookup a (scenes st) with
  | None => []
  | Some sc => filter (is_scene st) (map sourceId (nodes sc))
  end.

(** Modelled from the spec: the transitive walk of the candidate scene's
    node list, looking for [target]; [fuel] bounds the depth. *)
Fixpoint hasNestedScene (fuel : nat) (st : state) (a target : string) : bool :=
  match fuel with
  | 0 => false
  | S f => existsb (fun c => String.eqb c target || hasNestedScene f st c target)
                   (childScenes st a)
  end.

(** Modelled from the spec: [addSource] refuses an unknown source, a scene
    adding itself, and a scene whose transitive content holds the target. *)
Definition canAddSource (st : state) (target src : string) : bool :=
  existsb (String.eqb src) (registered_sources st) &&
  (if is_scene st src
   then negb (String.eqb src target)
        && negb (hasNestedScene (List.length (scenes st)) st src target)
   else true).

(** Modelled from the spec: [Scene.addSource(sourceId)]; the new node is
    put first in the read order of [getItems]. *)
Definition addSource (target src : string) : M (option item) :=
  let* st := get in
  let* sc := getSceneModel target in
  if canAddSource st target src then
    let* n := getUniqueId in
    let it := mkItem n src default_transform true false in
    putScene target (set_nodes (it :: nodes sc) sc) ;;
    emit (ItemAdded it) ;;
    ret (Some it)
  else ret None.

(** Modelled from the spec: [Scene.removeItem(sceneItemId)]; an unknown id
    is a no-op. *)
Definition removeItem (sid itemId : string) : M unit :=
  let* sc := getSceneModel sid in
  match find (fun i => String.eqb (sceneItemId i) itemId) (nodes sc) with
  | None => ret tt
  | Some it =>
      putScene sid (set_nodes (filter (fun i => negb (String.eqb (sceneItemId i) itemId))
                                      (nodes sc)) sc) ;;
      emit (ItemRemoved it)
  end.

(** Modelled from the spec: an update of one item, announced by
    [itemUpdated]. *)
Definition updateItem (sid itemId : string) (f : item -> item) : M unit :=
  let* sc := getSceneModel sid in
  match find (fun i => String.eqb (sceneItemId i) itemId) (nodes sc) with
  | None => ret tt
  | Some it =>
      putScene sid (set_nodes (map (fun i => if String.eqb (sceneItemId i) itemId
                                             then f i else i) (nodes sc)) sc) ;;
      emit (ItemUpdated (f it))
  end.

Definition getSettings (it : item) : item_settings :=
  mkSettings (item_transform it) (item_visible it) (item_locked it).

(** Modelled from the spec: [SceneItem.setSettings(settings)]. *)
Definition setSettings (sid itemId : string) (s : item_settings) : M unit :=
  updateItem sid itemId
    (fun it => mkItem (sceneItemId it) (sourceId it) (s_transform s)
                      (s_visible s) (s_locked s)).

(** Modelled from the spec: [SceneItem.setTransform(patch)]. *)
Definition setTransform (sid itemId : string) (p : transform_patch) : M unit :=
  updateItem sid itemId
    (fun it => mkItem (sceneItemId it) (sourceId it)
                      (apply_patch p (item_transform it))
                      (item_visible it) (item_locked it)).

(* ------------------------------------------------------------------ *)
(** ** ScenesService *)

Module ScenesService.

(** [initialState]. *)
Definition initialState : state := mkState "" [] [] [] 0.

Definition dquote : string := String.String (Ascii.ascii_of_nat 34) EmptyString.

Definition backslash : string := String.String (Ascii.ascii_of_nat 92) EmptyString.

(** A lower-case hexadecimal digit, for [n < 16]. *)
Definition hex_digit (n : nat) : string :=
  String.String (Ascii.ascii_of_nat (if Nat.ltb n 10 then 48 + n else 87 + n)) EmptyString.

(** The escape [JSON.stringify] writes for one character of a string: the
    double quote and the backslash are preceded by a backslash, the control
    characters with a short escape (b, f, n, r, t) use it, the other
    control characters become a u00XX escape; every other character is
    kept. *)
Definition json_escape_char (c : Ascii.ascii) : string :=
  let n := Ascii.nat_of_ascii c in
  if Nat.eqb n 34 then backslash ++ dquote
  else if Nat.eqb n 92 then backslash ++ backslash
  else if Nat.eqb n 8 then backslash ++ "b"
  else if Nat.eqb n 12 then backslash ++ "f"
  else if Nat.eqb n 10 then backslash ++ "n"
  else if Nat.eqb n 13 then backslash ++ "r"
  else if Nat.eqb n 9 then backslash ++ "t"
  else if Nat.ltb n 32 then backslash ++ "u00" ++ hex_digit (n / 16) ++ hex_digit (n mod 16)
  else String.String c EmptyString.

Fixpoint json_escape (s : string) : string :=
  match s with
  | EmptyString => EmptyString
  | String.String c s' => json_escape_char c ++ json_escape s'
  end.

(** [JSON.stringify([s])]. *)
Definition json_stringify_list1 (s : string) : string :=
  "[" ++ dquote ++ json_escape s ++ dquote ++ "]".

(** [ADD_SCENE]: note [activeSceneId || id]. *)
Definition ADD_SCENE (sid nm : string) : M unit :=
  modify (fun st =>
    mkState (if String.eqb (activeSceneId st) "" then sid else activeSceneId st)
            ((displayOrder st ++ [sid])%list)
            (vue_set sid (mkScene sid nm ("Scene" ++ json_stringify_list1 sid) []) (scenes st))
            (registered_sources st) (uid st)).

(** [REMOVE_SCENE]. *)
Definition REMOVE_SCENE (sid : string) : M unit :=
  modify (fun st => set_displayOrder (without (displayOrder st) sid)
                                     (set_scenes (vue_delete sid (scenes st)) st)).

(** [MAKE_SCENE_ACTIVE]. *)
Definition MAKE_SCENE_ACTIVE (sid : string) : M unit :=
  modify (set_activeSceneId sid).

(** [SET_SCENE_ORDER]. *)
Definition SET_SCENE_ORDER (order : list string) : M unit :=
  modify (set_displayOrder order).

(** [getScene(id)]: [None] is the returned [null]. The own keys of
    [state.scenes] are looked up; for a name [state.scenes] inherits from
    [Object.prototype] (see [object_prototype_keys]) the code's truthiness
    test differs, and no property below relies on such an id. *)
Definition getScene (sid : string) : M (option scene) :=
  fun st => Some (lookup sid (scenes st), st, []).


(** [getSceneByName(name)]: the last match in key order wins. *)
Definition find_by_name (nm : string) (m : list (string * scene)) : option string :=
  fold_left (fun acc p => if String.eqb (name (snd p)) nm then Some (id (snd p)) else acc)
            m None.

Definition getSceneByName (nm : string) : M (option scene) :=
  fun st => Some (match find_by_name nm (scenes st) with
                  | Some sid => lookup sid (scenes st)
                  | None => None
                  end, st, []).

(** [getSceneItems()]: the items of [this.scenes], i.e. of the scenes in
    display order; a display-order id without scene is a call on [null]. *)
Fixpoint sceneItemsOf (m : list (string * scene)) (order : list string)
  : option (list (string * item)) :=
  match order with
  | [] => Some []
  | sid :: order' =>
      match lookup sid m, sceneItemsOf m order' with
      | Some sc, Some rest => Some ((map (fun it => (sid, it)) (nodes sc) ++ rest)%list)
      | _, _ => None
      end
  end.

Definition getSceneItems : M (list (string * item)) :=
  fun st => match sceneItemsOf (scenes st) (displayOrder st) with
            | Some l => Some (l, st, [])
            | None => None
            end.

(** [makeSceneActive(id)]. *)
Definition makeSceneActive (sid : string) : M bool :=
  let* o := getScene sid in
  match o with
  | None => ret false
  | Some _ =>
      emit (TransitionTo sid) ;;
      MAKE_SCENE_ACTIVE sid ;;
      let* sc := getSceneModel sid in
      emit (SceneSwitched sc) ;;
      ret true
  end.

(** [ISceneCreateOptions]. *)
Record createOptions := mkOptions {
  o_sceneId : option string;
  o_duplicateSourcesFromScene : option string;
  o_makeActive : bool
}.

Definition noOptions : createOptions := mkOptions None None false.

(** the [forEach] of [createScene] copying the items of [oldScene]. *)
Definition duplicateItems (newId : string) (items : list item) : M unit :=
  forM (rev items) (fun it =>
    let* o := addSource newId (sourceId it) in
    match o with
    | None => throw
    | Some ni => setSettings newId (sceneItemId ni) (getSettings it)
    end).

(** [createScene(name, options)]. *)
Definition createScene (nm : string) (options : createOptions) : M (option scene) :=
  let* sid := match o_sceneId options with
              | Some s => if String.eqb s "" then
                            let* u := getUniqueId in ret ("scene_" ++ u)
                          else ret s
              | None => let* u := getUniqueId in ret ("scene_" ++ u)
              end in
  ADD_SCENE sid nm ;;
  registerSource sid ;;
  (match o_duplicateSourcesFromScene options with
   | Some tmpl =>
       if String.eqb tmpl "" then ret tt else
       let* old := getSceneByName tmpl in
       match old with
       | None => throw
       | Some oldScene => duplicateItems sid (nodes oldScene)
       end
   | None => ret tt
   end) ;;
  let* sc := getSceneModel sid in
  emit (SceneAdded sc) ;;
  (if o_makeActive options then let* _ := makeSceneActive sid in ret tt else ret tt) ;;
  getSceneByName nm.

Definition removeItems (items : list (string * item)) (target : string) : M unit :=
  forM items (fun p => if String.eqb (sourceId (snd p)) target
                       then removeItem (fst p) (sceneItemId (snd p)) else ret tt).

Definition alert_msg : string := "There needs to be at least one scene.".

(** [removeScene(id, force)]: [None] is the [undefined] of the refusal. *)
Definition removeScene (sid : string) (force : bool) : M (option scene) :=
  let* st := get in
  if negb force && (Nat.ltb (List.length (scenes st)) 2) then
    emit (Alert alert_msg) ;; ret None
  else
    let* items := getItems sid in
    forM items (fun it => removeItem sid (sceneItemId it)) ;;
    let* all := getSceneItems in
    removeItems all sid ;;
    let* sceneModel := getSceneModel sid in
    REMOVE_SCENE sid ;;
    let* st' := get in
    (if String.eqb (activeSceneId st') sid then
       match keys (scenes st') with
       | first :: _ =>
           if String.eqb first "" then ret tt
           else let* _ := makeSceneActive first in ret tt
       | [] => ret tt
       end
     else ret tt) ;;
    emit (SceneRemoved sceneModel) ;;
    ret (Some sceneModel).

(** [setSceneOrder(order)]. *)
Definition setSceneOrder (order : list string) : M unit :=
  SET_SCENE_ORDER order.

End ScenesService.

(** Modelled from the spec: [Scene.getItem(sceneItemId)], the read of an
    item model ([getModel()]). *)
Definition getItem (sid itemId : string) : M (option item) :=
  let* sc := getSceneModel sid in
  ret (find (fun i => String.eqb (sceneItemId i) itemId) (nodes sc)).

(* ------------------------------------------------------------------ *)
(** ** Queries of [ScenesService] over its scene list *)

(** [get scenes()] (and [getScenes()]):
    [displayOrder.map(id => this.getScene(id))]; a [Scene] handle is its id,
    [None] the [null] of an id that names no scene. *)
Definition sceneList : M (list (option string)) :=
  fun st => Some (map (fun k => match lookup k (scenes st) with
                                | Some _ => Some k
                                | None => None
                                end) (displayOrder st), st, []).

(** The [forEach] of [getSourceScenes]: [scene.getItems()] on a [null]
    entry throws. *)
Fixpoint sourceScenesLoop (sourceId0 : string) (ss : list (option string))
  (resultScenes : list string) : M (list string) :=
  match ss with
  | [] => ret resultScenes
  | None :: _ => throw
  | Some k :: ss' =>
      let* items0 := getItems k in
      let items := filter (fun i => String.eqb (sourceId i) sourceId0) items0 in
      sourceScenesLoop sourceId0 ss'
        (if Nat.ltb 0 (List.length items) then (resultScenes ++ [k])%list else resultScenes)
  end.

(** [getSourceScenes(sourceId)]. *)
Definition getSourceScenes (sourceId0 : string) : M (list string) :=
  let* ss := sceneList in
  sourceScenesLoop sourceId0 ss [].

(** The [for ... of] of [getSceneItem]: the first scene, in display order,
    whose [getItem] finds the id; [scene.getItem] on a [null] throws. *)
Fixpoint getSceneItemLoop (sceneItemId0 : string) (ss : list (option string))
  : M (option (string * item)) :=
  match ss with
  | [] => ret None
  | None :: _ => throw
  | Some k :: ss' =>
      let* o := getItem k sceneItemId0 in
      match o with
      | Some it => ret (Some (k, it))
      | None => getSceneItemLoop sceneItemId0 ss'
      end
  end.

(** [getSceneItem(sceneItemId)]: the item with its scene. *)
Definition getSceneItem (sceneItemId0 : string) : M (option (string * item)) :=
  let* ss := sceneList in
  getSceneItemLoop sceneItemId0 ss.

(** A scene [k] of [st] holds a node whose source is [src]. *)
Definition has_source (st : state) (src k : string) : bool :=
  match lookup k (scenes st) with
  | Some sk => existsb (fun i => String.eqb (sourceId i) src) (nodes sk)
  | None => false
  end.

Definition rotation_patch (r : Q) : transform_patch :=
  mkPatch None None (Some r) None.

Definition crop_patch_all (t b l r : Q) : transform_patch :=
  mkPatch None None None (Some (mkCropPatch (Some t) (Some b) (Some l) (Some r))).

(** The state after the application starts: one scene named "Scene". *)
Definition st_default : state :=
  match ScenesService.createScene "Scene" ScenesService.noOptions
          ScenesService.initialState with
  | Some (_, st, _) => st
  | None => ScenesService.initialState
  end.

(** [st_default] with one color source item in its scene. *)
Definition st_one_item : state :=
  match (registerSource "MyColorSource" ;; addSource "scene_0x0" "MyColorSource")
          st_default with
  | Some (_, st, _) => st
  | None => st_default
  end.

(** Sources "Image1" and "Image2" registered, "Image1" added to "Scene". *)
Definition st_image1 : state :=
  match (registerSource "Image1" ;; registerSource "Image2" ;;
         addSource "scene_0x0" "Image1") st_default with
  | Some (_, st, _) => st
  | None => st_default
  end.

(** the scenes announced by [sceneSwitched], in order. *)
Fixpoint switches (tr : list effect) : list scene :=
  match tr with
  | [] => []
  | SceneSwitched s :: tr' => s :: switches tr'
  | _ :: tr' => switches tr'
  end.

(** The state after [removeScene(defaultScene, true)]: no scene left. *)
Definition st_removed : state :=
  match ScenesService.removeScene "scene_0x0" true st_default with
  | Some (_, st, _) => st
  | None => st_default
  end.

(** The id [createScene] gives to the new scene. *)
Definition createdId (options : ScenesService.createOptions) (st : state) : string :=
  match ScenesService.o_sceneId options with
  | Some s => if String.eqb s "" then "scene_" ++ HexString.of_nat (uid st) else s
  | None => "scene_" ++ HexString.of_nat (uid st)
  end.

(** The item of [st_one_item] and its scene. *)
Definition color_item : item := mkItem "0x1" "MyColorSource" default_transform true false.
Definition scene_with_color : scene :=
  mkScene "scene_0x0" "Scene" ("Scene" ++ ScenesService.json_stringify_list1 "scene_0x0") [color_item].

(** "Image2" added after "Image1". *)
Definition image2_item : item := mkItem "0x2" "Image2" default_transform true false.
Definition st_image2 : state :=
  match addSource "scene_0x0" "Image2" st_image1 with
  | Some (_, st, _) => st
  | None => st_image1
  end.

(** The "a node of scene [a] references the nested scene [b]" relation. *)
Definition edge (st : state) (a b : string) : Prop := In b (childScenes st a).

(** [walk st a p c]: from [a], following [p] edge by edge, ends in [c]. *)
Inductive walk (st : state) : string -> list string -> string -> Prop :=
| walk_nil a : walk st a [] a
| walk_cons a b p c : edge st a b -> walk st b p c -> walk st a (b :: p) c.

(** [c] is (transitively) nested in [a]. *)
Definition reach (st : state) (a c : string) : Prop :=
  exists p, p <> [] /\ walk st a p c.

Definition acyclic (st : state) : Prop := forall a, ~ reach st a a.

(** A sequence of [scene.addSource(sourceId)] calls, [(scene, sourceId)]. *)
Definition addSources (calls : list (string * string)) : M unit :=
  forM calls (fun p => let* _ := addSource (fst p) (snd p) in ret tt).

(** The scenes of the "Creating nested scenes" test: SceneA, SceneB and
    SceneC are "scene_0x1", "scene_0x2" and "scene_0x3". *)
Definition st_abc : state :=
  match (ScenesService.createScene "SceneA" ScenesService.noOptions ;;
         ScenesService.createScene "SceneB" ScenesService.noOptions ;;
         ScenesService.createScene "SceneC" ScenesService.noOptions) st_default with
  | Some (_, st, _) => st
  | None => st_default
  end.

(** [sceneA.addSource(sceneB.id)], [sceneC.addSource(sceneA.id)],
    [sceneA.addSource(sceneC.id)]. *)
Definition nesting_calls : list (string * string) :=
  [("scene_0x1", "scene_0x2"); ("scene_0x3", "scene_0x1"); ("scene_0x1", "scene_0x3")].

(** SceneB nested in SceneA, SceneA nested in SceneC. *)
Definition st_nested : state :=
  match addSources (firstn 2 nesting_calls) st_abc with
  | Some (_, st, _) => st
  | None => st_abc
  end.

(** A decision of [acyclic] by the walk of [addSource]. *)
Definition acyclicb (st : state) : bool :=
  forallb (fun k => negb (hasNestedScene (List.length (scenes st)) st k k))
          (keys (scenes st)).


(** The scenes of the nesting test with SceneA active. *)
Definition st_A_active : state :=
  match ScenesService.makeSceneActive "scene_0x1" st_nested with
  | Some (_, st, _) => st
  | None => st_nested
  end.

(** Two scenes named "Scene". *)
Definition st_same_name : state :=
  match ScenesService.createScene "Scene" ScenesService.noOptions st_default with
  | Some (_, st, _) => st
  | None => st_default
  end.

Import ScenesService.

(** C3, as claimed: a non-permutation of the scene ids is rejected and
    leaves the display order unchanged. *)
Definition setSceneOrder_rejects_claim : Prop :=
  forall st order st' tr,
    ~ Permutation.Permutation order (keys (scenes st)) ->
    setSceneOrder order st = Some (tt, st', tr) ->
    displayOrder st' = displayOrder st.

(** C4, as claimed: [createScene] with the empty name returns no scene and
    emits no scene-added event. *)
Definition createScene_empty_fails_claim : Prop :=
  forall st r st' tr,
    createScene "" noOptions st = Some (r, st', tr) ->
    r = None /\ scenes st' = scenes st /\ forall s, ~ In (SceneAdded s) tr.

(** An operation that leaves the active pointer alone and emits no
    scene-switched event. *)
Definition keeps_active {A} (m : M A) : Prop :=
  forall st a st' tr, m st = Some (a, st', tr) ->
    activeSceneId st' = activeSceneId st /\ switches tr = [].



(** Every item id is a generated id older than [u]. *)
Definition ids_below (u : nat) (l : list item) : Prop :=
  forall x, In x l -> exists v, v < u /\ sceneItemId x = HexString.of_nat v.

(** C5, as claimed: duplicating a scene gives the new scene's nodes new
    sources, none of which was a source before. *)
Definition createScene_deep_duplicate_claim : Prop :=
  forall st nm tmpl r st' tr sc,
    createScene nm (mkOptions None (Some tmpl) false) st = Some (r, st', tr) ->
    lookup (createdId noOptions st) (scenes st') = Some sc ->
    forall ni, In ni (nodes sc) -> ~ In (sourceId ni) (registered_sources st).

(* ================================================================== *)
(** * Properties *)

Lemma bind_some {A B} (m : M A) (f : A -> M B) st a st1 t1 :
  m st = Some (a, st1, t1) ->
  bind m f st = match f a st1 with
                | None => None
                | Some (b, st2, t2) => Some (b, st2, (t1 ++ t2)%list)
                end.
Proof. intro H. unfold bind. rewrite H. reflexivity. Qed.

(** C2: with exactly one scene, [removeScene(id)] without force only raises
    the alert: the state is unchanged (one scene, same nodes), no
    scene-removed event is emitted and the refusal [undefined] is returned. *)
Theorem removeScene_last_scene_refused (st : state) (sid : string)
  (H : List.length (scenes st) = 1) :
  removeScene sid false st = Some (None, st, [Alert alert_msg]).
Proof.
  unfold removeScene, bind, get. simpl. rewrite H. reflexivity.
Qed.

Lemma removeScene_last_scene_refused_witness :
  List.length (scenes st_default) = 1 /\
  removeScene "scene_0x0" false st_default = Some (None, st_default, [Alert alert_msg]).
Proof.
  split; [vm_compute; reflexivity |].
  apply removeScene_last_scene_refused. vm_compute. reflexivity.
Defined.

(** C3 (counterexample): with the default scene, [setSceneOrder(["bogus"])]
    stores ["bogus"] although it is no permutation of the scene ids. *)
Lemma setSceneOrder_accepts_non_permutation : ~ setSceneOrder_rejects_claim.
Proof.
  unfold setSceneOrder_rejects_claim. intro H.
  assert (Hp : ~ Permutation.Permutation ["bogus"] (keys (scenes st_default))).
  { intro Hp. apply (Permutation.Permutation_in "bogus") in Hp; [| left; reflexivity].
    vm_compute in Hp. destruct Hp as [Hp | []]. discriminate Hp. }
  specialize (H st_default ["bogus"] (set_displayOrder ["bogus"] st_default) [] Hp
                eq_refl).
  vm_compute in H. discriminate H.
Qed.

(** C3 (amended): [setSceneOrder(order)] stores [order] as the display order
    for every list of ids, without any check and without events. *)
Theorem setSceneOrder_unchecked (st : state) (order : list string) :
  setSceneOrder order st = Some (tt, set_displayOrder order st, []).
Proof. reflexivity. Qed.

Lemma vue_set_fresh k v m : lookup k m = None -> vue_set k v m = (m ++ [(k, v)])%list.
Proof.
  induction m as [| [k' v'] m IH]; simpl; [reflexivity |].
  destruct (String.eqb k k'); [discriminate | intro H; rewrite (IH H); reflexivity].
Qed.

Lemma lookup_app_fresh k v m : lookup k m = None -> lookup k (m ++ [(k, v)])%list = Some v.
Proof.
  induction m as [| [k' v'] m IH]; simpl.
  - rewrite String.eqb_refl. reflexivity.
  - destruct (String.eqb k k'); [discriminate | exact IH].
Qed.

Lemma find_by_name_last nm m k v :
  name v = nm -> find_by_name nm (m ++ [(k, v)])%list = Some (id v).
Proof.
  intro Hn. unfold find_by_name. rewrite fold_left_app. simpl.
  rewrite Hn, String.eqb_refl. reflexivity.
Qed.

(** C4 (counterexample): from the default state, [createScene("")] registers
    a scene named "" and emits scene-added for it. *)
Lemma createScene_empty_name_accepted : ~ createScene_empty_fails_claim.
Proof.
  unfold createScene_empty_fails_claim. intro H.
  destruct (createScene "" noOptions st_default) as [[[r st'] tr] |] eqn:E;
    [| vm_compute in E; discriminate E].
  destruct (H _ _ _ _ E) as [Hr _].
  vm_compute in E. injection E as <- _ _. discriminate Hr.
Qed.

(** C4 (amended): [createScene] does not look at the name.  For any name,
    the empty one included, it registers the scene under a fresh id, emits a
    scene-added event for it and returns it; refusing an empty name is left
    to the caller ([NameScene.submit]). *)
Theorem createScene_registers_any_name (st : state) (nm : string)
  (Hfresh : lookup (createdId noOptions st) (scenes st) = None) :
  let sid := createdId noOptions st in
  let sc := mkScene sid nm ("Scene" ++ json_stringify_list1 sid) [] in
  exists st', createScene nm noOptions st = Some (Some sc, st', [SceneAdded sc])
              /\ scenes st' = (scenes st ++ [(sid, sc)])%list.
Proof.
  cbv zeta. unfold createdId in *. simpl in Hfresh.
  unfold createScene, bind, getUniqueId, ret, ADD_SCENE, modify, registerSource,
    emit, getSceneModel, getSceneByName, noOptions. simpl.
  rewrite (vue_set_fresh _ _ _ Hfresh), (lookup_app_fresh _ _ _ Hfresh).
  cbn [scenes]. rewrite find_by_name_last by reflexivity. cbn [id].
  rewrite (lookup_app_fresh _ _ _ Hfresh).
  eexists. split; reflexivity.
Qed.

Lemma createScene_registers_any_name_witness :
  lookup (createdId noOptions st_default) (scenes st_default) = None /\
  exists st', createScene "" noOptions st_default =
    Some (Some (mkScene "scene_0x1" "" ("Scene" ++ json_stringify_list1 "scene_0x1") []),
          st', [SceneAdded (mkScene "scene_0x1" "" ("Scene" ++ json_stringify_list1 "scene_0x1") [])])
    /\ scenes st' = (scenes st_default ++
         [("scene_0x1", mkScene "scene_0x1" "" ("Scene" ++ json_stringify_list1 "scene_0x1") [])])%list.
Proof.
  split; [vm_compute; reflexivity |].
  exact (createScene_registers_any_name st_default "" eq_refl).
Defined.

(* ------------------------------------------------------------------ *)
(** ** Item updates *)

Lemma lookup_vue_set_same k v m : lookup k (vue_set k v m) = Some v.
Proof.
  induction m as [| [k' v'] m IH]; simpl.
  - rewrite String.eqb_refl. reflexivity.
  - destruct (String.eqb k k') eqn:E; simpl.
    + rewrite String.eqb_refl. reflexivity.
    + rewrite E. exact IH.
Qed.

Lemma find_map_update (k : string) (f : item -> item) (l : list item) :
  (forall i, sceneItemId (f i) = sceneItemId i) ->
  find (fun i => String.eqb (sceneItemId i) k)
       (map (fun i => if String.eqb (sceneItemId i) k then f i else i) l)
  = option_map f (find (fun i => String.eqb (sceneItemId i) k) l).
Proof.
  intro Hf. induction l as [| i l IH]; simpl; [reflexivity |].
  destruct (String.eqb (sceneItemId i) k) eqn:E; simpl.
  - rewrite Hf, E. reflexivity.
  - rewrite E. exact IH.
Qed.

Lemma updateItem_found (st : state) (sid iid : string) (sc : scene) (it : item)
  (f : item -> item) :
  lookup sid (scenes st) = Some sc ->
  find (fun i => String.eqb (sceneItemId i) iid) (nodes sc) = Some it ->
  updateItem sid iid f st =
  Some (tt, set_scenes (vue_set sid
          (set_nodes (map (fun i => if String.eqb (sceneItemId i) iid then f i else i)
                          (nodes sc)) sc) (scenes st)) st,
        [ItemUpdated (f it)]).
Proof.
  intros Hs Hi. unfold updateItem, bind, getSceneModel, putScene, modify, emit.
  rewrite Hs, Hi. reflexivity.
Qed.

Lemma getItem_after_update (st : state) (sid iid : string) (sc : scene) (it : item)
  (f : item -> item) :
  (forall i, sceneItemId (f i) = sceneItemId i) ->
  lookup sid (scenes st) = Some sc ->
  find (fun i => String.eqb (sceneItemId i) iid) (nodes sc) = Some it ->
  exists st', updateItem sid iid f st = Some (tt, st', [ItemUpdated (f it)]) /\
              getItem sid iid st' = Some (Some (f it), st', []).
Proof.
  intros Hf Hs Hi. rewrite (updateItem_found st sid iid sc it f Hs Hi).
  eexists. split; [reflexivity |].
  unfold getItem, bind, getSceneModel, ret. cbn [scenes set_scenes].
  rewrite lookup_vue_set_same. cbn [nodes set_nodes].
  rewrite (find_map_update _ _ _ Hf), Hi. reflexivity.
Qed.

(* ------------------------------------------------------------------ *)
(** ** Rotation arithmetic *)

Section Rotation.
Local Open Scope Q_scope.

Lemma div360 (a : Q) : a == 360 * (a / 360).
Proof. field. Qed.

Lemma js_mod360_nonneg_range (a : Q) : 0 <= a -> 0 <= js_mod a 360 /\ js_mod a 360 < 360.
Proof.
  intro Ha. unfold js_mod, js_trunc.
  pose proof (div360 a) as Hd.
  set (q := a / 360) in *.
  assert (Hq : 0 <= q) by lra.
  apply Qle_bool_iff in Hq. rewrite Hq.
  pose proof (Qfloor_le q) as H1. pose proof (Qlt_floor q) as H2.
  rewrite inject_Z_plus in H2. unfold inject_Z at 2 in H2.
  split; lra.
Qed.

Lemma js_mod360_range (a : Q) : -360 < js_mod a 360 /\ js_mod a 360 < 360.
Proof.
  destruct (Qlt_le_dec a 0) as [Ha | Ha].
  - unfold js_mod, js_trunc.
    pose proof (div360 a) as Hd.
    set (q := a / 360) in *.
    assert (Hq : q < 0) by lra.
    destruct (Qle_bool 0 q) eqn:E.
    + apply Qle_bool_iff in E. lra.
    + pose proof (Qle_ceiling q) as H1. pose proof (Qceiling_lt q) as H2.
      assert (E1 : inject_Z (Qceiling q - 1) == inject_Z (Qceiling q) - 1)
        by (unfold Qeq, inject_Z; simpl; lia).
      rewrite E1 in H2.
      split; lra.
  - destruct (js_mod360_nonneg_range a Ha). split; lra.
Qed.

Lemma normalize_rotation_range (r : Q) :
  0 <= normalize_rotation r /\ normalize_rotation r < 360.
Proof.
  unfold normalize_rotation. apply js_mod360_nonneg_range.
  destruct (js_mod360_range r). lra.
Qed.

(** C7: [setTransform({rotation: r})] on an item, then reading the item,
    gives the rotation [((r % 360) + 360) % 360], which lies in [[0, 360)]. *)
Theorem setTransform_rotation_normalized (st : state) (sid iid : string)
  (sc : scene) (it : item) (r : Q)
  (Hs : lookup sid (scenes st) = Some sc)
  (Hi : find (fun i => String.eqb (sceneItemId i) iid) (nodes sc) = Some it) :
  exists st' tr it',
    setTransform sid iid (rotation_patch r) st = Some (tt, st', tr) /\
    getItem sid iid st' = Some (Some it', st', []) /\
    rotation (item_transform it') = js_mod (js_mod r 360 + 360) 360 /\
    0 <= rotation (item_transform it') /\ rotation (item_transform it') < 360.
Proof.
  unfold setTransform.
  match goal with
  | |- context [updateItem _ _ ?F _] =>
      destruct (getItem_after_update st sid iid sc it F (fun _ => eq_refl) Hs Hi)
        as [st' [H1 H2]]
  end.
  exists st'. eexists. eexists. split; [exact H1 |]. split; [exact H2 |].
  split; [reflexivity |]. apply normalize_rotation_range.
Qed.

Lemma setTransform_rotation_normalized_witness :
  lookup "scene_0x0" (scenes st_one_item) = Some scene_with_color /\
  find (fun i => String.eqb (sceneItemId i) "0x1") (nodes scene_with_color) = Some color_item /\
  exists st' tr it',
    setTransform "scene_0x0" "0x1" (rotation_patch 450) st_one_item = Some (tt, st', tr) /\
    getItem "scene_0x0" "0x1" st' = Some (Some it', st', []) /\
    rotation (item_transform it') = js_mod (js_mod 450 360 + 360) 360 /\
    0 <= rotation (item_transform it') /\ rotation (item_transform it') < 360.
Proof.
  split; [vm_compute; reflexivity |]. split; [vm_compute; reflexivity |].
  apply (setTransform_rotation_normalized st_one_item "scene_0x0" "0x1"
           scene_with_color color_item 450); vm_compute; reflexivity.
Defined.

Example rotation_450 : normalize_rotation 450 = 90.
Proof. vm_compute. reflexivity. Qed.

Example rotation_minus_10 : normalize_rotation (-10) = 350.
Proof. vm_compute. reflexivity. Qed.

Lemma normalize_crop_field_spec (x : Q) :
  0 <= normalize_crop_field x /\
  (0 <= x -> normalize_crop_field x - (1 # 2) <= x /\ x < normalize_crop_field x + (1 # 2)).
Proof.
  unfold normalize_crop_field, js_round.
  destruct (Qle_bool 0 x) eqn:E.
  - apply Qle_bool_iff in E.
    pose proof (Qfloor_le (x + (1 # 2))) as H1.
    pose proof (Qlt_floor (x + (1 # 2))) as H2.
    rewrite inject_Z_plus in H2. unfold inject_Z at 2 in H2.
    split; [| intros _; split; lra].
    assert (H3 : (0 <= Qfloor (x + (1 # 2)))%Z).
    { change 0%Z with (Qfloor 0). apply Qfloor_resp_le. lra. }
    rewrite Zle_Qle in H3. exact H3.
  - split; [vm_compute; discriminate |].
    intro Hx. apply Qle_bool_iff in Hx. congruence.
Qed.

Lemma js_round_Z (z : Z) : js_round (inject_Z z) = z.
Proof.
  unfold js_round.
  pose proof (Qfloor_le (inject_Z z + (1 # 2))) as H1.
  pose proof (Qlt_floor (inject_Z z + (1 # 2))) as H2.
  generalize dependent (Qfloor (inject_Z z + (1 # 2))). intros w H1 H2.
  rewrite inject_Z_plus in H2. change (inject_Z 1) with 1 in H2.
  assert (A : (w < z + 1)%Z).
  { rewrite Zlt_Qlt, inject_Z_plus. change (inject_Z 1) with 1. lra. }
  assert (B : (z < w + 1)%Z).
  { rewrite Zlt_Qlt, inject_Z_plus. change (inject_Z 1) with 1. lra. }
  lia.
Qed.

Lemma normalize_crop_field_idem (x : Q) :
  normalize_crop_field (normalize_crop_field x) = normalize_crop_field x.
Proof.
  destruct (normalize_crop_field_spec x) as [H0 _].
  unfold normalize_crop_field at 1.
  assert (E : Qle_bool 0 (normalize_crop_field x) = true) by (apply Qle_bool_iff; exact H0).
  rewrite E. unfold normalize_crop_field at 1. rewrite js_round_Z. reflexivity.
Qed.

(** C8: [setTransform({crop})] on an item writes each crop field that the
    patch gives clamped to [>= 0] and rounded to the nearest integer, and
    keeps each field it omits; position, scale and rotation are kept, and a
    read returns the stored crop, which a second normalisation would not
    change. On the test's crop [{top:1.2,bottom:5.6,left:7.1,right:10}] the
    stored crop is [{top:1,bottom:6,left:7,right:10}]. *)
Theorem setTransform_crop_rounded (st : state) (sid iid : string)
  (sc : scene) (it : item)
  (Hs : lookup sid (scenes st) = Some sc)
  (Hi : find (fun i => String.eqb (sceneItemId i) iid) (nodes sc) = Some it) :
  (forall cp : crop_patch, exists st' tr it',
    setTransform sid iid (mkPatch None None None (Some cp)) st = Some (tt, st', tr) /\
    getItem sid iid st' = Some (Some it', st', []) /\
    position (item_transform it') = position (item_transform it) /\
    scale (item_transform it') = scale (item_transform it) /\
    rotation (item_transform it') = rotation (item_transform it) /\
    crop_top (crop_of (item_transform it')) =
      or_keep (option_map normalize_crop_field (p_top cp)) (crop_top (crop_of (item_transform it))) /\
    crop_bottom (crop_of (item_transform it')) =
      or_keep (option_map normalize_crop_field (p_bottom cp)) (crop_bottom (crop_of (item_transform it))) /\
    crop_left (crop_of (item_transform it')) =
      or_keep (option_map normalize_crop_field (p_left cp)) (crop_left (crop_of (item_transform it))) /\
    crop_right (crop_of (item_transform it')) =
      or_keep (option_map normalize_crop_field (p_right cp)) (crop_right (crop_of (item_transform it)))) /\
  (forall x, (exists z, normalize_crop_field x = inject_Z z) /\
     0 <= normalize_crop_field x /\
     (x < 0 -> normalize_crop_field x = 0) /\
     (0 <= x -> normalize_crop_field x - (1 # 2) <= x /\ x < normalize_crop_field x + (1 # 2)) /\
     normalize_crop_field (normalize_crop_field x) = normalize_crop_field x) /\
  (exists st' tr it',
    setTransform sid iid (crop_patch_all (12 # 10) (56 # 10) (71 # 10) 10) st
      = Some (tt, st', tr) /\
    getItem sid iid st' = Some (Some it', st', []) /\
    crop_of (item_transform it') = mkCrop 1 6 7 10).
Proof.
  split; [| split].
  - intro cp. unfold setTransform.
    match goal with
    | |- context [updateItem _ _ ?F _] =>
        destruct (getItem_after_update st sid iid sc it F (fun _ => eq_refl) Hs Hi)
          as [st' [H1 H2]]
    end.
    exists st'. eexists. eexists. split; [exact H1 |]. split; [exact H2 |].
    cbn. repeat split; reflexivity.
  - intro x. split; [| split; [| split; [| split]]].
    + exists (js_round (if Qle_bool 0 x then x else 0)). reflexivity.
    + exact (proj1 (normalize_crop_field_spec x)).
    + intro Hx. unfold normalize_crop_field.
      destruct (Qle_bool 0 x) eqn:E; [apply Qle_bool_iff in E; lra | reflexivity].
    + exact (proj2 (normalize_crop_field_spec x)).
    + apply normalize_crop_field_idem.
  - unfold setTransform.
    match goal with
    | |- context [updateItem _ _ ?F _] =>
        destruct (getItem_after_update st sid iid sc it F (fun _ => eq_refl) Hs Hi)
          as [st' [H1 H2]]
    end.
    exists st'. eexists. eexists. split; [exact H1 |]. split; [exact H2 |].
    vm_compute. reflexivity.
Qed.

Lemma setTransform_crop_rounded_witness :
  lookup "scene_0x0" (scenes st_one_item) = Some scene_with_color /\
  find (fun i => String.eqb (sceneItemId i) "0x1") (nodes scene_with_color) = Some color_item /\
  (forall cp : crop_patch, exists st' tr it',
    setTransform "scene_0x0" "0x1" (mkPatch None None None (Some cp)) st_one_item = Some (tt, st', tr) /\
    getItem "scene_0x0" "0x1" st' = Some (Some it', st', []) /\
    position (item_transform it') = position (item_transform color_item) /\
    scale (item_transform it') = scale (item_transform color_item) /\
    rotation (item_transform it') = rotation (item_transform color_item) /\
    crop_top (crop_of (item_transform it')) =
      or_keep (option_map normalize_crop_field (p_top cp)) (crop_top (crop_of (item_transform color_item))) /\
    crop_bottom (crop_of (item_transform it')) =
      or_keep (option_map normalize_crop_field (p_bottom cp)) (crop_bottom (crop_of (item_transform color_item))) /\
    crop_left (crop_of (item_transform it')) =
      or_keep (option_map normalize_crop_field (p_left cp)) (crop_left (crop_of (item_transform color_item))) /\
    crop_right (crop_of (item_transform it')) =
      or_keep (option_map normalize_crop_field (p_right cp)) (crop_right (crop_of (item_transform color_item)))) /\
  (forall x, (exists z, normalize_crop_field x = inject_Z z) /\
     0 <= normalize_crop_field x /\
     (x < 0 -> normalize_crop_field x = 0) /\
     (0 <= x -> normalize_crop_field x - (1 # 2) <= x /\ x < normalize_crop_field x + (1 # 2)) /\
     normalize_crop_field (normalize_crop_field x) = normalize_crop_field x) /\
  (exists st' tr it',
    setTransform "scene_0x0" "0x1" (crop_patch_all (12 # 10) (56 # 10) (71 # 10) 10)
      st_one_item = Some (tt, st', tr) /\
    getItem "scene_0x0" "0x1" st' = Some (Some it', st', []) /\
    crop_of (item_transform it') = mkCrop 1 6 7 10).
Proof.
  split; [vm_compute; reflexivity |]. split; [vm_compute; reflexivity |].
  apply (setTransform_crop_rounded st_one_item "scene_0x0" "0x1"
           scene_with_color color_item); vm_compute; reflexivity.
Defined.

End Rotation.

(** C9: a successful [addSource] puts the new item first in the read order
    of the scene: [getItems()] is the new item followed by the items the
    scene had; so adding "Image1" then "Image2" reads [[Image2, Image1]]. *)
Theorem addSource_puts_new_item_first (st : state) (target src : string)
  (it : item) (st' : state) (tr : list effect)
  (H : addSource target src st = Some (Some it, st', tr)) :
  exists sc, lookup target (scenes st) = Some sc /\
             getItems target st' = Some (it :: nodes sc, st', []).
Proof.
  revert H. unfold addSource, bind, get, getSceneModel.
  destruct (lookup target (scenes st)) as [sc |] eqn:Hs; [| discriminate].
  destruct (canAddSource st target src); [| discriminate].
  unfold getUniqueId, putScene, modify, emit, ret. simpl.
  intro H. injection H as <- <- <-.
  exists sc. split; [reflexivity |].
  unfold getItems, bind, getSceneModel, ret. simpl.
  rewrite lookup_vue_set_same. reflexivity.
Qed.

Lemma addSource_puts_new_item_first_witness :
  addSource "scene_0x0" "Image2" st_image1
    = Some (Some image2_item, st_image2, [ItemAdded image2_item]) /\
  exists sc, lookup "scene_0x0" (scenes st_image1) = Some sc /\
    getItems "scene_0x0" st_image2 = Some (image2_item :: nodes sc, st_image2, []) /\
    map sourceId (image2_item :: nodes sc) = ["Image2"; "Image1"].
Proof.
  assert (E : addSource "scene_0x0" "Image2" st_image1
                = Some (Some image2_item, st_image2, [ItemAdded image2_item]))
    by (vm_compute; reflexivity).
  split; [exact E |].
  destruct (addSource_puts_new_item_first _ _ _ _ _ _ E) as [sc [H1 H2]].
  exists sc. split; [exact H1 |]. split; [exact H2 |].
  vm_compute in H1. injection H1 as <-. reflexivity.
Defined.

(* ------------------------------------------------------------------ *)
(** ** Operations that leave the active scene alone *)

Lemma bind_inv {A B} (m : M A) (f : A -> M B) st b st2 t :
  bind m f st = Some (b, st2, t) ->
  exists a st1 t1 t2, m st = Some (a, st1, t1) /\ f a st1 = Some (b, st2, t2)
                      /\ t = (t1 ++ t2)%list.
Proof.
  unfold bind. destruct (m st) as [[[a st1] t1] |] eqn:Hm; [| discriminate].
  destruct (f a st1) as [[[b' st2'] t2] |] eqn:Hf; [| discriminate].
  intro H. injection H as <- <- <-. exists a, st1, t1, t2. auto.
Qed.

Lemma switches_app t1 t2 : switches (t1 ++ t2) = (switches t1 ++ switches t2)%list.
Proof.
  induction t1 as [| e t1 IH]; [reflexivity |].
  destruct e; simpl; rewrite IH; reflexivity.
Qed.

Lemma ka_bind {A B} (m : M A) (f : A -> M B) :
  keeps_active m -> (forall a, keeps_active (f a)) -> keeps_active (bind m f).
Proof.
  intros Hm Hf st b st2 t H.
  apply bind_inv in H as (a & st1 & t1 & t2 & H1 & H2 & ->).
  destruct (Hm _ _ _ _ H1) as [E1 S1]. destruct (Hf _ _ _ _ _ H2) as [E2 S2].
  rewrite switches_app, S1, S2. split; [congruence | reflexivity].
Qed.

Lemma ka_ret {A} (a : A) : keeps_active (ret a).
Proof. intros st b st' t H. injection H as <- <- <-. auto. Qed.

Lemma ka_get : keeps_active get.
Proof. intros st b st' t H. injection H as <- <- <-. auto. Qed.

Lemma ka_throw {A} : keeps_active (@throw A).
Proof. intros st b st' t H. discriminate H. Qed.

Lemma ka_emit e :
  match e with SceneSwitched _ => False | _ => True end -> keeps_active (emit e).
Proof.
  intros He st b st' t H. injection H as <- <- <-.
  destruct e; try contradiction; auto.
Qed.

Lemma ka_modify f :
  (forall st, activeSceneId (f st) = activeSceneId st) -> keeps_active (modify f).
Proof. intros Hf st b st' t H. injection H as <- <- <-. auto. Qed.

Lemma ka_getSceneModel sid : keeps_active (getSceneModel sid).
Proof.
  intros st b st' t. unfold getSceneModel.
  destruct (lookup sid (scenes st)); [| discriminate].
  intro H. injection H as <- <- <-. auto.
Qed.

Lemma ka_getUniqueId : keeps_active getUniqueId.
Proof. intros st b st' t H. injection H as <- <- <-. auto. Qed.

Lemma ka_forM {A} (l : list A) (f : A -> M unit) :
  (forall x, keeps_active (f x)) -> keeps_active (forM l f).
Proof.
  intro Hf. induction l as [| x l IH]; simpl; [apply ka_ret |].
  apply ka_bind; [apply Hf | intros _; exact IH].
Qed.

Ltac keeps :=
  repeat match goal with
  | |- keeps_active (bind _ _) => apply ka_bind; [| intro]
  | |- keeps_active (ret _) => apply ka_ret
  | |- keeps_active get => apply ka_get
  | |- keeps_active throw => apply ka_throw
  | |- keeps_active (emit _) => apply ka_emit; exact I
  | |- keeps_active (modify _) => apply ka_modify; intro; reflexivity
  | |- keeps_active (getSceneModel _) => apply ka_getSceneModel
  | |- keeps_active getUniqueId => apply ka_getUniqueId
  | |- keeps_active (if ?b then _ else _) => destruct b
  | |- keeps_active (match ?x with _ => _ end) => destruct x
  end.

Lemma ka_addSource target src : keeps_active (addSource target src).
Proof. unfold addSource, putScene. keeps. Qed.

Lemma ka_updateItem sid iid f : keeps_active (updateItem sid iid f).
Proof. unfold updateItem, putScene. keeps. Qed.

Lemma ka_duplicateItems newId items : keeps_active (duplicateItems newId items).
Proof.
  unfold duplicateItems. apply ka_forM. intro it.
  apply ka_bind; [apply ka_addSource | intros [ni |]; [apply ka_updateItem | apply ka_throw]].
Qed.

Lemma ka_getSceneByName nm : keeps_active (getSceneByName nm).
Proof. intros st b st' t H. injection H as <- <- <-. auto. Qed.

Lemma ka_registerSource sid : keeps_active (registerSource sid).
Proof. unfold registerSource. keeps. Qed.

Lemma makeSceneActive_existing (st : state) (sid : string) (sc : scene) :
  lookup sid (scenes st) = Some sc ->
  makeSceneActive sid st =
    Some (true, set_activeSceneId sid st, [TransitionTo sid; SceneSwitched sc]).
Proof.
  intro Hs. unfold makeSceneActive, bind, getScene, emit, MAKE_SCENE_ACTIVE, modify,
    getSceneModel, ret. rewrite Hs. simpl. rewrite Hs. reflexivity.
Qed.

Lemma createScene_id_step (options : createOptions) (st : state) sid st1 t1 :
  (match o_sceneId options with
   | Some s => if String.eqb s "" then
                 let* u := getUniqueId in ret ("scene_" ++ u)
               else ret s
   | None => let* u := getUniqueId in ret ("scene_" ++ u)
   end) st = Some (sid, st1, t1) ->
  sid = createdId options st /\ activeSceneId st1 = activeSceneId st /\ t1 = [].
Proof.
  unfold createdId.
  destruct (o_sceneId options) as [s |]; [destruct (String.eqb s "") |];
    intro H; injection H as <- <- <-; auto.
Qed.

(** C10 (code bug): after [removeScene(id, true)] of the only scene, no
    scene exists but the active pointer still names the removed scene;
    [createScene('Scene2')] keeps that stale pointer ([activeSceneId || id]),
    so one scene exists and none is active. *)
Lemma createScene_after_forced_removal_stale_active :
  (exists r tr, removeScene "scene_0x0" true st_default = Some (r, st_removed, tr)) /\
  scenes st_removed = [] /\ activeSceneId st_removed = "scene_0x0" /\
  exists r st' tr,
    createScene "Scene2" noOptions st_removed = Some (r, st', tr) /\
    keys (scenes st') = ["scene_0x1"] /\
    activeSceneId st' = "scene_0x0" /\
    lookup (activeSceneId st') (scenes st') = None /\
    switches tr = [].
Proof.
  split; [do 2 eexists; vm_compute; reflexivity |].
  split; [vm_compute; reflexivity |]. split; [vm_compute; reflexivity |].
  do 3 eexists. split; [vm_compute; reflexivity |].
  repeat split; vm_compute; reflexivity.
Qed.

(** C10 (amended): [createScene] makes the new scene active, without a
    scene-switched event, exactly when the active pointer is empty (as in
    the initial state), since [ADD_SCENE] keeps [activeSceneId || id];
    otherwise the pointer is unchanged, unless [makeActive] is passed, in
    which case [makeSceneActive] sets it and emits one scene-switched event
    for the new scene. *)
Theorem createScene_active_pointer (st : state) (nm : string)
  (options : createOptions) (r : option scene) (st' : state) (tr : list effect)
  (H : createScene nm options st = Some (r, st', tr)) :
  let sid := createdId options st in
  (o_makeActive options = false ->
     activeSceneId st' = (if String.eqb (activeSceneId st) "" then sid
                          else activeSceneId st) /\ switches tr = []) /\
  (o_makeActive options = true ->
     activeSceneId st' = sid /\
     exists sc, lookup sid (scenes st') = Some sc /\ switches tr = [sc]).
Proof.
  cbv zeta. unfold createScene in H.
  apply bind_inv in H as (sid & st1 & t1 & t2 & H1 & H2 & ->).
  apply createScene_id_step in H1 as (-> & A1 & ->).
  apply bind_inv in H2 as (u1 & st2 & t3 & t4 & H3 & H4 & ->).
  unfold ADD_SCENE, modify in H3. injection H3 as <- <- <-.
  apply bind_inv in H4 as (u2 & st3 & t5 & t6 & H5 & H6 & ->).
  destruct (ka_registerSource _ _ _ _ _ H5) as [A3 S3].
  apply bind_inv in H6 as (u3 & st4 & t7 & t8 & H7 & H8 & ->).
  match type of H7 with
  | ?m _ = _ => assert (Hk : keeps_active m)
  end.
  { destruct (o_duplicateSourcesFromScene options) as [tmpl |]; [| apply ka_ret].
    destruct (String.eqb tmpl ""); [apply ka_ret |].
    apply ka_bind; [apply ka_getSceneByName |].
    intros [o |]; [apply ka_duplicateItems | apply ka_throw]. }
  destruct (Hk _ _ _ _ H7) as [A4 S4].
  apply bind_inv in H8 as (sc & st5 & t9 & t10 & H9 & H10 & ->).
  unfold getSceneModel in H9.
  destruct (lookup (createdId options st) (scenes st4)) as [sc' |] eqn:L5;
    [| discriminate H9].
  injection H9 as <- <- <-.
  apply bind_inv in H10 as (u4 & st6 & t11 & t12 & H11 & H12 & ->).
  unfold emit in H11. injection H11 as <- <- <-.
  apply bind_inv in H12 as (u5 & st7 & t13 & t14 & H13 & H14 & ->).
  unfold getSceneByName in H14. injection H14 as _ <- <-.
  rewrite !switches_app, S3, S4. cbn [activeSceneId] in A3.
  rewrite A1 in A3.
  destruct (o_makeActive options); split; intro Hm; try discriminate Hm.
  - apply bind_inv in H13 as (b & st8 & t15 & t16 & H15 & H16 & ->).
    rewrite (makeSceneActive_existing _ _ _ L5) in H15.
    injection H15 as <- <- <-. injection H16 as <- <- <-.
    split; [reflexivity |]. exists sc'. split; [exact L5 | reflexivity].
  - injection H13 as <- <- <-. split; [congruence | reflexivity].
Qed.

Lemma createScene_active_pointer_witness :
  createScene "Scene2" (mkOptions None None true) st_default =
    Some (Some (mkScene "scene_0x1" "Scene2"
                  ("Scene" ++ json_stringify_list1 "scene_0x1") []),
          set_activeSceneId "scene_0x1"
            (match createScene "Scene2" noOptions st_default with
             | Some (_, s, _) => s | None => st_default end),
          [SceneAdded (mkScene "scene_0x1" "Scene2" ("Scene" ++ json_stringify_list1 "scene_0x1") []);
           TransitionTo "scene_0x1";
           SceneSwitched (mkScene "scene_0x1" "Scene2" ("Scene" ++ json_stringify_list1 "scene_0x1") [])])
  /\ activeSceneId (set_activeSceneId "scene_0x1"
            (match createScene "Scene2" noOptions st_default with
             | Some (_, s, _) => s | None => st_default end)) = "scene_0x1".
Proof.
  assert (E : createScene "Scene2" (mkOptions None None true) st_default =
    Some (Some (mkScene "scene_0x1" "Scene2"
                  ("Scene" ++ json_stringify_list1 "scene_0x1") []),
          set_activeSceneId "scene_0x1"
            (match createScene "Scene2" noOptions st_default with
             | Some (_, s, _) => s | None => st_default end),
          [SceneAdded (mkScene "scene_0x1" "Scene2" ("Scene" ++ json_stringify_list1 "scene_0x1") []);
           TransitionTo "scene_0x1";
           SceneSwitched (mkScene "scene_0x1" "Scene2" ("Scene" ++ json_stringify_list1 "scene_0x1") [])]))
    by (vm_compute; reflexivity).
  split; [exact E |].
  destruct (createScene_active_pointer _ _ _ _ _ _ E) as [_ Ht].
  destruct (Ht eq_refl) as [Ha _]. exact Ha.
Defined.

(* ------------------------------------------------------------------ *)
(** ** Duplicating the items of a scene *)

Lemma lookup_app_some k v m l : lookup k m = Some v -> lookup k (m ++ l)%list = Some v.
Proof.
  induction m as [| [k' v'] m IH]; simpl; [discriminate |].
  destruct (String.eqb k k'); [auto | exact IH].
Qed.

Lemma find_by_name_app_other nm m k v :
  String.eqb (name v) nm = false ->
  find_by_name nm (m ++ [(k, v)])%list = find_by_name nm m.
Proof.
  intro Hn. unfold find_by_name. rewrite fold_left_app. simpl. rewrite Hn. reflexivity.
Qed.

Lemma hex_of_nat_inj u v : HexString.of_nat u = HexString.of_nat v -> u = v.
Proof.
  intro H. rewrite <- (HexString.to_nat_of_nat u), <- (HexString.to_nat_of_nat v), H.
  reflexivity.
Qed.

Lemma map_update_absent (k : string) (f : item -> item) (l : list item) :
  (forall x, In x l -> String.eqb (sceneItemId x) k = false) ->
  map (fun i => if String.eqb (sceneItemId i) k then f i else i) l = l.
Proof.
  induction l as [| x l IH]; intro H; simpl; [reflexivity |].
  rewrite (H x (or_introl eq_refl)), IH; [reflexivity |].
  intros y Hy. apply H. right. exact Hy.
Qed.

Lemma addSource_some (target src : string) (s s0 : state) (ni : item)
  (t0 : list effect) (sc : scene) :
  lookup target (scenes s) = Some sc ->
  addSource target src s = Some (Some ni, s0, t0) ->
  ni = mkItem (HexString.of_nat (uid s)) src default_transform true false /\
  s0 = mkState (activeSceneId s) (displayOrder s)
         (vue_set target (set_nodes (ni :: nodes sc) sc) (scenes s))
         (registered_sources s) (S (uid s)).
Proof.
  intros Hs. unfold addSource, bind, get, getSceneModel. rewrite Hs.
  destruct (canAddSource s target src); [| discriminate].
  unfold getUniqueId, putScene, modify, emit, ret, set_scenes. simpl.
  intro H. injection H as <- <- _. split; reflexivity.
Qed.

Lemma dup_step (sid : string) (it : item) (s s1 : state) (t1 : list effect) (sc : scene) :
  lookup sid (scenes s) = Some sc ->
  ids_below (uid s) (nodes sc) ->
  (let* o := addSource sid (sourceId it) in
   match o with
   | None => throw
   | Some ni => setSettings sid (sceneItemId ni) (getSettings it)
   end) s = Some (tt, s1, t1) ->
  exists ni, lookup sid (scenes s1) = Some (set_nodes (ni :: nodes sc) sc) /\
    sourceId ni = sourceId it /\ getSettings ni = getSettings it /\
    sceneItemId ni = HexString.of_nat (uid s) /\ uid s1 = S (uid s) /\
    registered_sources s1 = registered_sources s.
Proof.
  intros Hs Hb H.
  apply bind_inv in H as (o & s0 & t2 & t3 & H1 & H2 & _).
  destruct o as [ni |]; [| discriminate H2].
  destruct (addSource_some _ _ _ _ _ _ _ Hs H1) as [-> ->].
  unfold setSettings in H2. cbn [sceneItemId] in H2.
  set (ni0 := mkItem (HexString.of_nat (uid s)) (sourceId it) default_transform true false)
    in *.
  rewrite (updateItem_found _ _ _ (set_nodes (ni0 :: nodes sc) sc) ni0 _) in H2;
    [| simpl; apply lookup_vue_set_same | simpl; rewrite String.eqb_refl; reflexivity].
  injection H2 as <- _.
  cbn [nodes set_nodes map]. rewrite String.eqb_refl.
  rewrite map_update_absent.
  - eexists. split; [simpl; rewrite lookup_vue_set_same; reflexivity |].
    repeat split; reflexivity.
  - intros x Hx. destruct (Hb x Hx) as [v [Hv Hid]]. rewrite Hid.
    apply String.eqb_neq. intro E. apply hex_of_nat_inj in E. lia.
Qed.

Lemma dup_loop (sid : string) (L : list item) :
  forall (s s' : state) (t : list effect) (sc : scene),
  lookup sid (scenes s) = Some sc ->
  ids_below (uid s) (nodes sc) ->
  forM L (fun it =>
    let* o := addSource sid (sourceId it) in
    match o with
    | None => throw
    | Some ni => setSettings sid (sceneItemId ni) (getSettings it)
    end) s = Some (tt, s', t) ->
  exists sc', lookup sid (scenes s') = Some sc' /\
    map sourceId (nodes sc') = (map sourceId (rev L) ++ map sourceId (nodes sc))%list /\
    map getSettings (nodes sc') = (map getSettings (rev L) ++ map getSettings (nodes sc))%list /\
    registered_sources s' = registered_sources s.
Proof.
  induction L as [| x L IH]; intros s s' t sc Hs Hb H; simpl in H.
  - injection H as <- _. exists sc. auto.
  - apply bind_inv in H as ([] & s1 & t1 & t2 & H1 & H2 & _).
    destruct (dup_step _ _ _ _ _ _ Hs Hb H1) as (ni & L1 & E1 & E2 & E3 & E4 & E5).
    destruct (IH s1 s' t2 _ L1) as (sc' & L2 & F1 & F2 & F3); [| exact H2 |].
    + rewrite E4. intros y [<- | Hy].
      * exists (uid s). split; [lia | exact E3].
      * destruct (Hb y Hy) as [v [Hv Hid]]. exists v. split; [lia | exact Hid].
    + exists sc'. split; [exact L2 |].
      rewrite F1, F2, F3, E5. cbn [nodes set_nodes map rev].
      rewrite E1, E2, !map_app, <- !app_assoc. auto.
Qed.

(** C5 (counterexample): duplicating "Scene", which holds an item of
    "MyColorSource", gives "Copy" an item of that same source. *)
Lemma createScene_duplicate_reuses_source : ~ createScene_deep_duplicate_claim.
Proof.
  unfold createScene_deep_duplicate_claim. intro H.
  destruct (createScene "Copy" (mkOptions None (Some "Scene") false) st_one_item)
    as [[[r st'] tr] |] eqn:E; [| vm_compute in E; discriminate E].
  pose proof E as E'. vm_compute in E'. injection E' as _ Hst _.
  destruct (lookup (createdId noOptions st_one_item) (scenes st')) as [sc |] eqn:L;
    [| subst st'; vm_compute in L; discriminate L].
  specialize (H st_one_item "Copy" "Scene" r st' tr sc E L).
  subst st'. vm_compute in L. injection L as <-.
  vm_compute in H. apply (H _ (or_introl eq_refl)).
  vm_compute. right. left. reflexivity.
Qed.

(** C5 (amended): duplicating a template scene adds to the new scene, in the
    template's read order, one new node per template item that references
    the template item's own source id (sources are shared, none is created
    besides the scene's own) and carries a copy of the item's settings. *)
Theorem createScene_duplicate_shares_sources (st : state) (nm tmpl oid : string)
  (old : scene) (r : option scene) (st' : state) (tr : list effect)
  (Hfresh : lookup (createdId noOptions st) (scenes st) = None)
  (Hname : String.eqb nm tmpl = false)
  (Htmpl : String.eqb tmpl "" = false)
  (Hfind : find_by_name tmpl (scenes st) = Some oid)
  (Hold : lookup oid (scenes st) = Some old)
  (H : createScene nm (mkOptions None (Some tmpl) false) st = Some (r, st', tr)) :
  exists sc, lookup (createdId noOptions st) (scenes st') = Some sc /\
    map sourceId (nodes sc) = map sourceId (nodes old) /\
    map getSettings (nodes sc) = map getSettings (nodes old) /\
    registered_sources st' = (registered_sources st ++ [createdId noOptions st])%list.
Proof.
  unfold createdId in *. cbn [o_sceneId noOptions] in *.
  set (sid := "scene_" ++ HexString.of_nat (uid st)) in *.
  unfold createScene in H.
  apply bind_inv in H as (sid' & st1 & t1 & t2 & H1 & H2 & _).
  cbn [o_sceneId] in H1. unfold bind, getUniqueId, ret in H1.
  injection H1 as <- <- _. fold sid in H2.
  apply bind_inv in H2 as (u1 & st2 & t3 & t4 & H3 & H4 & _).
  unfold ADD_SCENE, modify in H3. injection H3 as _ <- _.
  apply bind_inv in H4 as (u2 & st3 & t5 & t6 & H5 & H6 & _).
  unfold registerSource, modify in H5. injection H5 as _ <- _.
  apply bind_inv in H6 as (u3 & st4 & t7 & t8 & H7 & H8 & _).
  cbn [o_duplicateSourcesFromScene] in H7. rewrite Htmpl in H7.
  apply bind_inv in H7 as (o & st3' & t9 & t10 & H9 & H10 & _).
  unfold getSceneByName in H9. cbn [scenes] in H9.
  rewrite (vue_set_fresh _ _ _ Hfresh), find_by_name_app_other, Hfind in H9
    by exact Hname.
  rewrite (lookup_app_some _ _ _ _ Hold) in H9.
  injection H9 as <- <- _.
  destruct u3. unfold duplicateItems in H10.
  eapply (dup_loop _ _ _ _ _ (mkScene sid nm ("Scene" ++ json_stringify_list1 sid) []))
    in H10; [| exact (lookup_app_fresh _ _ _ Hfresh) | intros x []].
  destruct H10 as (sc & L & F1 & F2 & F3).
  rewrite rev_involutive, app_nil_r in F1, F2. cbn [registered_sources] in F3.
  apply bind_inv in H8 as (sc5 & st5 & t11 & t12 & H11 & H12 & _).
  unfold getSceneModel in H11. rewrite L in H11. injection H11 as _ <- _.
  apply bind_inv in H12 as (u6 & st6 & t13 & t14 & H13 & H14 & _).
  unfold emit in H13. injection H13 as _ <- _.
  apply bind_inv in H14 as (u7 & st7 & t15 & t16 & H15 & H16 & _).
  cbn [o_makeActive] in H15. injection H15 as _ <- _.
  unfold getSceneByName in H16. injection H16 as _ <- _.
  exists sc. auto.
Qed.

Lemma createScene_duplicate_shares_sources_witness :
  lookup (createdId noOptions st_one_item) (scenes st_one_item) = None /\
  String.eqb "Copy" "Scene" = false /\ String.eqb "Scene" "" = false /\
  find_by_name "Scene" (scenes st_one_item) = Some "scene_0x0" /\
  lookup "scene_0x0" (scenes st_one_item) = Some scene_with_color /\
  exists r st' tr,
    createScene "Copy" (mkOptions None (Some "Scene") false) st_one_item = Some (r, st', tr) /\
    exists sc, lookup (createdId noOptions st_one_item) (scenes st') = Some sc /\
      map sourceId (nodes sc) = map sourceId (nodes scene_with_color) /\
      map getSettings (nodes sc) = map getSettings (nodes scene_with_color) /\
      registered_sources st' =
        (registered_sources st_one_item ++ [createdId noOptions st_one_item])%list.
Proof.
  split; [vm_compute; reflexivity |]. split; [reflexivity |].
  split; [reflexivity |]. split; [vm_compute; reflexivity |].
  split; [vm_compute; reflexivity |].
  destruct (createScene "Copy" (mkOptions None (Some "Scene") false) st_one_item)
    as [[[r st'] tr] |] eqn:E; [| vm_compute in E; discriminate E].
  exists r, st', tr. split; [reflexivity |].
  apply (createScene_duplicate_shares_sources st_one_item "Copy" "Scene" "scene_0x0"
           scene_with_color r st' tr); [vm_compute; reflexivity | reflexivity |
           reflexivity | vm_compute; reflexivity | vm_compute; reflexivity | exact E].
Defined.

(* ------------------------------------------------------------------ *)
(** ** Cycle freedom of nested scenes *)

Lemma lookup_vue_set k a v m :
  lookup k (vue_set a v m) = if String.eqb k a then Some v else lookup k m.
Proof.
  induction m as [| [k' v'] m IH]; simpl.
  - reflexivity.
  - destruct (String.eqb a k') eqn:E; simpl.
    + apply String.eqb_eq in E. subst k'. destruct (String.eqb k a); reflexivity.
    + rewrite IH. destruct (String.eqb k a) eqn:E1; [| reflexivity].
      apply String.eqb_eq in E1. subst k.
      rewrite E. reflexivity.
Qed.

Lemma lookup_some_in_keys k m sc : lookup k m = Some sc -> In k (keys m).
Proof.
  induction m as [| [k' v'] m IH]; simpl; [discriminate |].
  destruct (String.eqb k k') eqn:E.
  - intros _. left. symmetry. apply String.eqb_eq. exact E.
  - intro H. right. exact (IH H).
Qed.

Lemma edge_in_keys st a b : edge st a b -> In b (keys (scenes st)).
Proof.
  unfold edge, childScenes. destruct (lookup a (scenes st)); [| intros []].
  intro H. apply filter_In in H as [_ H]. unfold is_scene in H.
  destruct (lookup b (scenes st)) eqn:E; [| discriminate].
  exact (lookup_some_in_keys _ _ _ E).
Qed.

Lemma walk_in_keys st a p c : walk st a p c -> incl p (keys (scenes st)).
Proof.
  induction 1 as [| a b p c He Hw IH]; intros x Hx; [destruct Hx |].
  destruct Hx as [<- | Hx]; [exact (edge_in_keys _ _ _ He) | exact (IH x Hx)].
Qed.

Lemma walk_app st a p m q c : walk st a p m -> walk st m q c -> walk st a (p ++ q) c.
Proof.
  induction 1; intro Hq; simpl; [exact Hq |].
  econstructor; [eassumption | auto].
Qed.

Lemma walk_app_inv st p : forall a q c, walk st a (p ++ q) c ->
  exists m, walk st a p m /\ walk st m q c.
Proof.
  induction p as [| b p IH]; intros a q c H; simpl in H.
  - exists a. split; [constructor | exact H].
  - inversion H as [| a' b' p' c' He Hw]; subst.
    destruct (IH _ _ _ Hw) as [m [H1 H2]].
    exists m. split; [econstructor; eassumption | exact H2].
Qed.

Lemma walk_nil_inv st a c : walk st a [] c -> a = c.
Proof. inversion 1. reflexivity. Qed.

(** A walk through a repeated scene can skip the loop between the two
    visits; so every walk can be made one without repetitions. *)
Lemma walk_nodup st : forall n a p c, List.length p <= n -> walk st a p c -> p <> [] ->
  exists q, walk st a q c /\ q <> [] /\ NoDup q.
Proof.
  induction n as [| n IH]; intros a p c Hl Hw Hp.
  - destruct p; [contradiction | simpl in Hl; lia].
  - destruct (NoDup_dec String.string_dec p) as [Hd | Hd].
    + exists p. auto.
    + destruct (not_NoDup (fun x y => match String.string_dec x y with
                                        | left e => or_introl e
                                        | right n => or_intror n end) Hd) as (x & l1 & l2 & l3 & ->).
      apply walk_app_inv in Hw as (m1 & W1 & W2).
      inversion W2 as [| a' b' p' c' E1 W3]; subst.
      apply walk_app_inv in W3 as (m2 & _ & W4).
      inversion W4 as [| a'' b'' p'' c'' E2 W5]; subst.
      apply (IH a (l1 ++ x :: l3)%list c).
      * rewrite !length_app in Hl |- *. simpl in *. rewrite length_app in Hl.
        simpl in Hl. lia.
      * apply (walk_app _ _ _ _ _ _ W1). econstructor; eassumption.
      * destruct l1; discriminate.
Qed.

Lemma walk_hasNestedScene st : forall a q c f, walk st a q c -> q <> [] ->
  List.length q <= f -> hasNestedScene f st a c = true.
Proof.
  intros a q c f Hw. revert f.
  induction Hw as [a | a b p c He Hw IH]; intros f Hq Hl; [contradiction |].
  destruct f as [| f]; [simpl in Hl; lia |].
  simpl. apply existsb_exists. exists b. split; [exact He |].
  destruct p as [| y p].
  - apply walk_nil_inv in Hw. subst c. rewrite String.eqb_refl. reflexivity.
  - rewrite (IH f); [apply orb_true_r | discriminate | simpl in Hl |- *; lia].
Qed.

(** The bounded walk of [addSource] finds every nested scene. *)
Lemma reach_hasNestedScene st a c :
  reach st a c -> hasNestedScene (List.length (scenes st)) st a c = true.
Proof.
  intros [p [Hp Hw]].
  destruct (walk_nodup st (List.length p) a p c (le_n _) Hw Hp) as (q & Wq & Hq & Dq).
  apply (walk_hasNestedScene _ _ q); [exact Wq | exact Hq |].
  rewrite <- (length_map fst (scenes st)).
  apply NoDup_incl_length; [exact Dq | exact (walk_in_keys _ _ _ _ Wq)].
Qed.

Lemma acyclicb_sound st : acyclicb st = true -> acyclic st.
Proof.
  intros Hb a Hr.
  assert (Hk : In a (keys (scenes st))).
  { destruct Hr as [p [Hp Hw]]. destruct p as [| b p]; [contradiction |].
    inversion Hw as [| a' b' p' c' He _]; subst.
    unfold edge, childScenes in He.
    destruct (lookup a (scenes st)) eqn:E; [exact (lookup_some_in_keys _ _ _ E) | destruct He]. }
  unfold acyclicb in Hb. rewrite forallb_forall in Hb.
  specialize (Hb a Hk). rewrite (reach_hasNestedScene _ _ _ Hr) in Hb. discriminate Hb.
Qed.

Lemma addSource_cases (st : state) (a c : string) r st' tr :
  addSource a c st = Some (r, st', tr) ->
  (r = None /\ st' = st /\ tr = []) \/
  (exists sc it, lookup a (scenes st) = Some sc /\ canAddSource st a c = true /\
     sourceId it = c /\
     st' = mkState (activeSceneId st) (displayOrder st)
             (vue_set a (set_nodes (it :: nodes sc) sc) (scenes st))
             (registered_sources st) (S (uid st))).
Proof.
  unfold addSource, bind, get, getSceneModel.
  destruct (lookup a (scenes st)) as [sc |] eqn:Hs; [| discriminate].
  destruct (canAddSource st a c) eqn:Hc.
  - unfold getUniqueId, putScene, modify, emit, ret, set_scenes. simpl.
    intro H. injection H as _ <- _. right.
    exists sc, (mkItem (HexString.of_nat (uid st)) c default_transform true false).
    auto.
  - unfold ret. intro H. injection H as <- <- <-. left. auto.
Qed.

Section AfterAdd.

Variables (st : state) (a c : string) (sc : scene) (it : item).
Hypothesis Hs : lookup a (scenes st) = Some sc.
Hypothesis Hit : sourceId it = c.

Let st' := mkState (activeSceneId st) (displayOrder st)
             (vue_set a (set_nodes (it :: nodes sc) sc) (scenes st))
             (registered_sources st) (S (uid st)).

Lemma is_scene_after y : is_scene st' y = is_scene st y.
Proof.
  unfold is_scene, st'. cbn [scenes]. rewrite lookup_vue_set.
  destruct (String.eqb y a) eqn:E; [| reflexivity].
  apply String.eqb_eq in E. subst y. rewrite Hs. reflexivity.
Qed.

Lemma edge_after x y : edge st' x y -> edge st x y \/ (x = a /\ y = c /\ is_scene st c = true).
Proof.
  unfold edge, childScenes. unfold st' at 1. cbn [scenes]. rewrite lookup_vue_set.
  destruct (String.eqb x a) eqn:E.
  - apply String.eqb_eq in E. subst x. cbn [nodes set_nodes map].
    intro H. apply filter_In in H as [H1 H2]. rewrite is_scene_after in H2.
    destruct H1 as [<- | H1].
    + right. rewrite Hit in H2 |- *. auto.
    + left. rewrite Hs. apply filter_In. auto.
  - destruct (lookup x (scenes st)); [| intros []].
    intro H. left. apply filter_In in H as [H1 H2]. rewrite is_scene_after in H2.
    apply filter_In. auto.
Qed.

Lemma walk_after x p y : walk st' x p y ->
  walk st x p y \/
  ((exists p1, walk st x p1 a) /\ (exists p2, walk st c p2 y) /\ is_scene st c = true).
Proof.
  induction 1 as [x | x b p y He Hw IH].
  - left. constructor.
  - destruct (edge_after _ _ He) as [He' | (-> & -> & Hc)].
    + destruct IH as [IH | ((p1 & W1) & W2 & Hc)].
      * left. econstructor; eassumption.
      * right. split; [exists (b :: p1); econstructor; eassumption | auto].
    + right. split; [exists []; constructor |]. split; [| exact Hc].
      destruct IH as [IH | (_ & W2 & _)]; [exists p; exact IH | exact W2].
Qed.

End AfterAdd.

Lemma addSource_preserves_acyclic (st : state) (a c : string) r st' tr :
  acyclic st -> addSource a c st = Some (r, st', tr) -> acyclic st'.
Proof.
  intros Hac H. apply addSource_cases in H as [(_ & -> & _) | (sc & it & Hs & Hc & Hit & ->)];
    [exact Hac |].
  intros x [p [Hp Hw]].
  apply (walk_after _ _ _ _ _ Hs Hit) in Hw as [Hw | ((p1 & W1) & (p2 & W2) & Hsc)].
  - apply (Hac x). exists p. auto.
  - unfold canAddSource in Hc. rewrite Hsc in Hc.
    apply andb_prop in Hc as [_ Hc]. apply andb_prop in Hc as [Hne Hno].
    pose proof (walk_app _ _ _ _ _ _ W2 W1) as W.
    destruct (p2 ++ p1)%list as [| q0 q] eqn:Eq.
    + apply walk_nil_inv in W. rewrite W, String.eqb_refl in Hne. discriminate Hne.
    + rewrite (reach_hasNestedScene st c a) in Hno; [discriminate Hno |].
      exists (q0 :: q). split; [discriminate | exact W].
Qed.

Lemma addSources_preserves_acyclic calls : forall st st' tr,
  acyclic st -> addSources calls st = Some (tt, st', tr) -> acyclic st'.
Proof.
  induction calls as [| [a c] calls IH]; intros st st' tr Hac H.
  - injection H as <- _. exact Hac.
  - unfold addSources in H. simpl in H.
    apply bind_inv in H as (u & st1 & t1 & t2 & H1 & H2 & _).
    apply bind_inv in H1 as (r & st0 & t3 & t4 & H3 & H4 & _).
    injection H4 as _ <- _.
    exact (IH st0 st' t2 (addSource_preserves_acyclic _ _ _ _ _ _ Hac H3) H2).
Qed.

Lemma addSource_refuses_nesting (st : state) (a c : string) (sc : scene) :
  lookup a (scenes st) = Some sc -> (c = a \/ reach st c a) ->
  addSource a c st = Some (None, st, []).
Proof.
  intros Hs Hr. unfold addSource, bind, get, getSceneModel. rewrite Hs.
  assert (Hc : canAddSource st a c = false).
  { unfold canAddSource. destruct Hr as [-> | Hr].
    - unfold is_scene. rewrite Hs, String.eqb_refl, andb_false_r. reflexivity.
    - rewrite (reach_hasNestedScene _ _ _ Hr).
      destruct (is_scene st c) eqn:E; [rewrite !andb_false_r; reflexivity |].
      exfalso. destruct Hr as [[| b p] [Hp Hw]]; [contradiction |].
      inversion Hw as [| a' b' p' c' He _]; subst.
      unfold edge, childScenes in He. unfold is_scene in E.
      destruct (lookup c (scenes st)); [discriminate E | destruct He]. }
  rewrite Hc. reflexivity.
Qed.

(** C1: [addSource] never makes a scene reachable from itself through the
    "node references nested scene" relation: any sequence of [addSource]
    calls on an acyclic scene graph leaves it acyclic; and when scene [a] is
    scene [c] or is (transitively) nested in [c], [a.addSource(c.id)] is
    refused and leaves the whole state unchanged, with no event. *)
Theorem addSource_no_scene_cycle :
  (forall st calls st' tr, acyclic st -> addSources calls st = Some (tt, st', tr) ->
     acyclic st') /\
  (forall st a c sc, lookup a (scenes st) = Some sc -> (c = a \/ reach st c a) ->
     addSource a c st = Some (None, st, [])).
Proof.
  split; [intros st calls; exact (addSources_preserves_acyclic calls st) | exact addSource_refuses_nesting].
Qed.

Lemma addSource_no_scene_cycle_witness :
  (exists st' tr, addSources nesting_calls st_abc = Some (tt, st', tr) /\ acyclic st') /\
  (exists sc, lookup "scene_0x1" (scenes st_nested) = Some sc /\
     addSource "scene_0x1" "scene_0x3" st_nested = Some (None, st_nested, [])).
Proof.
  destruct addSource_no_scene_cycle as [Hseq Hrefuse]. split.
  - destruct (addSources nesting_calls st_abc) as [[[[] st'] tr] |] eqn:E;
      [| vm_compute in E; discriminate E].
    exists st', tr. split; [reflexivity |].
    apply (Hseq st_abc nesting_calls st' tr); [| exact E].
    apply acyclicb_sound. vm_compute. reflexivity.
  - destruct (lookup "scene_0x1" (scenes st_nested)) as [sc |] eqn:L;
      [| vm_compute in L; discriminate L].
    exists sc. split; [reflexivity |].
    apply (Hrefuse st_nested "scene_0x1" "scene_0x3" sc L). right.
    exists ["scene_0x1"]. split; [discriminate |].
    econstructor; [vm_compute; left; reflexivity | constructor].
Defined.

(* ------------------------------------------------------------------ *)
(** ** Removing a scene *)

Lemma keys_vue_set k v m : In k (keys m) -> keys (vue_set k v m) = keys m.
Proof.
  induction m as [| [k' v'] m IH]; simpl; [intros [] |].
  destruct (String.eqb k k') eqn:E.
  - apply String.eqb_eq in E. subst k'. reflexivity.
  - intros [H | H]; [subst k'; rewrite String.eqb_refl in E; discriminate E |].
    simpl. rewrite (IH H). reflexivity.
Qed.

Lemma vue_set_twice k v v' m : vue_set k v (vue_set k v' m) = vue_set k v m.
Proof.
  induction m as [| [k' w] m IH]; simpl.
  - rewrite String.eqb_refl. reflexivity.
  - destruct (String.eqb k k') eqn:E; simpl; rewrite ?String.eqb_refl, ?E, ?IH; reflexivity.
Qed.

Lemma vue_set_lookup_same k v m : lookup k m = Some v -> vue_set k v m = m.
Proof.
  induction m as [| [k' w] m IH]; simpl; [discriminate |].
  destruct (String.eqb k k') eqn:E.
  - intro H. injection H as ->. apply String.eqb_eq in E. subst k'. reflexivity.
  - intro H. rewrite (IH H). reflexivity.
Qed.

Lemma in_keys_lookup k m : In k (keys m) -> exists v, lookup k m = Some v.
Proof.
  induction m as [| [k' w] m IH]; simpl; [intros [] |].
  destruct (String.eqb k k') eqn:E; [eauto |].
  intros [H | H]; [subst k'; rewrite String.eqb_refl in E; discriminate E | auto].
Qed.

Lemma lookup_vue_delete k a m :
  lookup k (vue_delete a m) = if String.eqb k a then None else lookup k m.
Proof.
  unfold vue_delete. induction m as [| [k' w] m IH]; simpl.
  - destruct (String.eqb k a); reflexivity.
  - destruct (String.eqb k' a) eqn:Ea; simpl.
    + rewrite IH. apply String.eqb_eq in Ea. subst k'.
      destruct (String.eqb k a); reflexivity.
    + rewrite IH. destruct (String.eqb k k') eqn:Ek; [| reflexivity].
      apply String.eqb_eq in Ek. subst k'. rewrite Ea. reflexivity.
Qed.

Lemma keys_vue_delete a m : keys (vue_delete a m) = without (keys m) a.
Proof.
  unfold vue_delete, without, keys. induction m as [| [k' w] m IH]; simpl; [reflexivity |].
  destruct (String.eqb k' a); simpl; rewrite IH; reflexivity.
Qed.

Lemma find_unique l it :
  In it l -> NoDup (map sceneItemId l) ->
  find (fun i => String.eqb (sceneItemId i) (sceneItemId it)) l = Some it.
Proof.
  induction l as [| i l IH]; simpl; [intros [] |].
  intros Hin Hd. inversion Hd as [| x y Hni Hd']; subst.
  destruct (String.eqb (sceneItemId i) (sceneItemId it)) eqn:E.
  - destruct Hin as [-> | Hin]; [reflexivity |].
    apply String.eqb_eq in E. exfalso. apply Hni. rewrite E. apply in_map. exact Hin.
  - destruct Hin as [-> | Hin]; [rewrite String.eqb_refl in E; discriminate E |].
    auto.
Qed.

Lemma filter_id_absent l x :
  ~ In x (map sceneItemId l) ->
  filter (fun i => negb (String.eqb (sceneItemId i) x)) l = l.
Proof.
  induction l as [| i l IH]; simpl; [reflexivity |].
  intro H. destruct (String.eqb (sceneItemId i) x) eqn:E.
  - apply String.eqb_eq in E. exfalso. auto.
  - simpl. rewrite IH; auto.
Qed.

Lemma NoDup_ids_filter l f :
  NoDup (map sceneItemId l) -> NoDup (map sceneItemId (filter f l)).
Proof.
  induction l as [| i l IH]; simpl; [auto |].
  intro Hd. inversion Hd as [| x y Hni Hd']; subst.
  destruct (f i); simpl; [| auto].
  constructor; [| auto].
  intro Hin. apply Hni. apply in_map_iff in Hin as (j & Hj & Hin).
  apply filter_In in Hin as [Hin _]. rewrite <- Hj. apply in_map. exact Hin.
Qed.

Lemma removeItem_found s k sk it :
  lookup k (scenes s) = Some sk ->
  find (fun i => String.eqb (sceneItemId i) (sceneItemId it)) (nodes sk) = Some it ->
  removeItem k (sceneItemId it) s =
  Some (tt, set_scenes (vue_set k (set_nodes (filter (fun i =>
           negb (String.eqb (sceneItemId i) (sceneItemId it))) (nodes sk)) sk) (scenes s)) s,
        [ItemRemoved it]).
Proof.
  intros Hs Hf. unfold removeItem, bind, getSceneModel. rewrite Hs, Hf.
  unfold putScene, modify, emit. reflexivity.
Qed.

Lemma Forall_lookup (P : scene -> Prop) m k v :
  Forall (fun p => P (snd p)) m -> lookup k m = Some v -> P v.
Proof.
  induction 1 as [| [k' w] m Hp _ IH]; simpl; [discriminate |].
  destruct (String.eqb k k'); [intro H; injection H as <-; exact Hp | exact IH].
Qed.

Lemma remove_own_loop sid l : forall s sk,
  lookup sid (scenes s) = Some sk -> nodes sk = l -> NoDup (map sceneItemId l) ->
  forM l (fun it => removeItem sid (sceneItemId it)) s =
  Some (tt, set_scenes (vue_set sid (set_nodes [] sk) (scenes s)) s, map ItemRemoved l).
Proof.
  induction l as [| it l IH]; intros s sk Hs Hn Hd.
  - assert (E : set_nodes [] sk = sk) by (destruct sk; simpl in *; subst; reflexivity).
    rewrite E, (vue_set_lookup_same _ _ _ Hs). destruct s. reflexivity.
  - inversion Hd as [| x y Hni Hd']; subst.
    assert (Hf : find (fun i => String.eqb (sceneItemId i) (sceneItemId it)) (nodes sk) = Some it)
      by (rewrite Hn; apply find_unique; [left; reflexivity | exact Hd]).
    cbn [forM]. rewrite (bind_some _ _ _ _ _ _ (removeItem_found s sid sk it Hs Hf)).
    assert (Hl : filter (fun i => negb (String.eqb (sceneItemId i) (sceneItemId it))) (nodes sk) = l).
    { rewrite Hn. simpl. rewrite String.eqb_refl. simpl. exact (filter_id_absent _ _ Hni). }
    rewrite Hl.
    rewrite (IH _ (set_nodes l sk)); [| unfold set_scenes; simpl; rewrite lookup_vue_set, String.eqb_refl; reflexivity
                                     | reflexivity | exact Hd'].
    unfold set_scenes. simpl. rewrite vue_set_twice. reflexivity.
Qed.


Lemma sceneItemsOf_some m order :
  (forall k, In k order -> exists v, lookup k m = Some v) ->
  exists L, sceneItemsOf m order = Some L.
Proof.
  induction order as [| k order IH]; simpl; intro H; [eauto |].
  destruct (H k (or_introl eq_refl)) as [v Hv]. rewrite Hv.
  destruct IH as [L HL]; [intros k' Hk'; apply H; right; exact Hk' |].
  rewrite HL. eauto.
Qed.

Lemma sceneItemsOf_in m order : forall L k it,
  sceneItemsOf m order = Some L -> In (k, it) L ->
  In k order /\ exists sk, lookup k m = Some sk /\ In it (nodes sk).
Proof.
  induction order as [| k0 order IH]; simpl; intros L k it H Hin.
  - injection H as <-. destruct Hin.
  - destruct (lookup k0 m) as [sk0 |] eqn:E0; [| discriminate].
    destruct (sceneItemsOf m order) as [rest |] eqn:Er; [| discriminate].
    injection H as <-. apply in_app_or in Hin as [Hin | Hin].
    + apply in_map_iff in Hin as (i & Hi & Hin). injection Hi as -> ->.
      split; [left; reflexivity | eauto].
    + destruct (IH rest k it eq_refl Hin) as [Ho Hs]. split; [right; exact Ho | exact Hs].
Qed.

Lemma sceneItemsOf_complete m order : forall L k sk it,
  sceneItemsOf m order = Some L -> In k order -> lookup k m = Some sk ->
  In it (nodes sk) -> In (k, it) L.
Proof.
  induction order as [| k0 order IH]; simpl; intros L k sk it H Ho Hs Hi; [destruct Ho |].
  destruct (lookup k0 m) as [sk0 |] eqn:E0; [| discriminate].
  destruct (sceneItemsOf m order) as [rest |] eqn:Er; [| discriminate].
  injection H as <-. apply in_or_app. destruct Ho as [<- | Ho].
  - left. rewrite E0 in Hs. injection Hs as <-.
    apply (in_map (fun it => (k0, it))). exact Hi.
  - right. exact (IH rest k sk it eq_refl Ho Hs Hi).
Qed.

Lemma NoDup_pair_ids (k : string) (l : list item) :
  NoDup (map sceneItemId l) ->
  NoDup (map (fun p => (fst p, sceneItemId (snd p))) (map (fun it => (k, it)) l)).
Proof.
  induction l as [| i l IH]; simpl; intro Hd; [constructor |].
  inversion Hd as [| x y Hni Hd']; subst.
  constructor; [| auto].
  intro Hin. apply Hni. rewrite map_map in Hin. apply in_map_iff in Hin as (j & Hj & Hin).
  injection Hj as Hj. rewrite <- Hj. apply in_map. exact Hin.
Qed.

Lemma sceneItemsOf_nodup m order : forall L,
  NoDup order ->
  (forall k sk, lookup k m = Some sk -> NoDup (map sceneItemId (nodes sk))) ->
  sceneItemsOf m order = Some L ->
  NoDup (map (fun p => (fst p, sceneItemId (snd p))) L).
Proof.
  induction order as [| k0 order IH]; simpl; intros L Hd Hids H.
  - injection H as <-. constructor.
  - destruct (lookup k0 m) as [sk0 |] eqn:E0; [| discriminate].
    destruct (sceneItemsOf m order) as [rest |] eqn:Er; [| discriminate].
    injection H as <-. inversion Hd as [| x y Hni Hd']; subst.
    rewrite map_app. apply NoDup_app.
    + apply NoDup_pair_ids. exact (Hids k0 sk0 E0).
    + exact (IH rest Hd' Hids eq_refl).
    + intros [k i] Hin Hin'. rewrite map_map in Hin. apply in_map_iff in Hin as (j & Hj & _).
      injection Hj as <- _. apply in_map_iff in Hin' as ([k' j'] & Hj' & Hin').
      simpl in Hj'. injection Hj' as -> _.
      exact (Hni (proj1 (sceneItemsOf_in _ _ _ _ _ Er Hin'))).
Qed.






(* ================================================================== *)
(** * Further properties of [ScenesService] *)

Lemma bind_none {A B} (m : M A) (f : A -> M B) st :
  m st = None -> bind m f st = None.
Proof. intro H. unfold bind. rewrite H. reflexivity. Qed.

Lemma removeScene_guard_passes (st : state) (force : bool) :
  force = true \/ 2 <= List.length (scenes st) ->
  negb force && Nat.ltb (List.length (scenes st)) 2 = false.
Proof.
  intros [-> | H]; [reflexivity |].
  destruct force; [reflexivity | simpl; apply Nat.ltb_ge; exact H].
Qed.

(** X1: [removeScene(id)] with an id that names no scene throws (it calls
    [getItems] on the [null] of [getScene]) as soon as the last-scene guard
    lets it through. *)
Theorem removeScene_unknown_id_throws (st : state) (sid : string) (force : bool) :
  lookup sid (scenes st) = None ->
  force = true \/ 2 <= List.length (scenes st) ->
  removeScene sid force st = None.
Proof.
  intros Hs Hrem. unfold removeScene. rewrite (bind_some get _ st st st [] eq_refl). cbv beta.
  rewrite (removeScene_guard_passes _ _ Hrem).
  assert (G : getItems sid st = None) by (unfold getItems, bind, getSceneModel; rewrite Hs; reflexivity).
  rewrite (bind_none _ _ _ G). reflexivity.
Qed.

Lemma removeScene_unknown_id_throws_witness :
  lookup "scene_0x9" (scenes st_default) = None /\ removeScene "scene_0x9" true st_default = None.
Proof.
  split; [vm_compute; reflexivity |].
  apply removeScene_unknown_id_throws; [vm_compute; reflexivity | left; reflexivity].
Defined.

Lemma sceneItemsOf_none m order b :
  In b order -> lookup b m = None -> sceneItemsOf m order = None.
Proof.
  induction order as [| k order IH]; simpl; [intros [] |].
  intros [<- | Hin] Hb.
  - rewrite Hb. reflexivity.
  - rewrite (IH Hin Hb). destruct (lookup k m); reflexivity.
Qed.

Lemma sourceScenesLoop_none src order b : forall acc s,
  In b order -> lookup b (scenes s) = None ->
  sourceScenesLoop src (map (fun k => match lookup k (scenes s) with
                                      | Some _ => Some k
                                      | None => None
                                      end) order) acc s = None.
Proof.
  induction order as [| k order IH]; simpl; intros acc s Hin Hb; [destruct Hin |].
  destruct (lookup k (scenes s)) as [sk |] eqn:Hk; [| reflexivity].
  destruct Hin as [<- | Hin]; [rewrite Hb in Hk; discriminate Hk |].
  assert (G : getItems k s = Some (nodes sk, s, []))
    by (unfold getItems, bind, getSceneModel, ret; rewrite Hk; reflexivity).
  rewrite (bind_some _ _ _ _ _ _ G). cbv beta. rewrite (IH _ s Hin Hb). reflexivity.
Qed.

(** X2: once [setSceneOrder] has stored an id that names no scene (it does
    not check, see C3), [getSceneItems()], [getSourceScenes(sourceId)] and
    [removeScene] of any removable scene all throw, since they call a
    method on the [null] that [getScene] returns for that id. *)
Theorem unknown_display_id_breaks_queries (st : state) (order : list string)
  (b sid src : string) (force : bool) (sc : scene) :
  In b order -> lookup b (scenes st) = None ->
  lookup sid (scenes st) = Some sc -> NoDup (map sceneItemId (nodes sc)) ->
  force = true \/ 2 <= List.length (scenes st) ->
  (setSceneOrder order ;; getSceneItems) st = None /\
  (setSceneOrder order ;; getSourceScenes src) st = None /\
  (setSceneOrder order ;; removeScene sid force) st = None.
Proof.
  intros Hin Hb Hs Hd Hrem.
  set (st0 := set_displayOrder order st).
  assert (E0 : setSceneOrder order st = Some (tt, st0, [])) by reflexivity.
  rewrite !(bind_some _ _ _ _ _ _ E0). split; [| split].
  - unfold getSceneItems. unfold st0, set_displayOrder. simpl.
    rewrite (sceneItemsOf_none _ _ _ Hin Hb). reflexivity.
  - unfold getSourceScenes. rewrite (bind_some sceneList _ st0 _ st0 [] eq_refl). cbv beta.
    change (displayOrder st0) with order.
    rewrite (sourceScenesLoop_none src order b [] st0 Hin Hb). reflexivity.
  - unfold removeScene. rewrite (bind_some get _ st0 st0 st0 [] eq_refl). cbv beta.
    rewrite (removeScene_guard_passes st0 _ Hrem).
    assert (Gi : getItems sid st0 = Some (nodes sc, st0, []))
      by (unfold getItems, bind, getSceneModel, ret; change (scenes st0) with (scenes st);
          rewrite Hs; reflexivity).
    rewrite (bind_some _ _ _ _ _ _ Gi). cbv beta.
    rewrite (bind_some _ _ _ _ _ _ (remove_own_loop sid (nodes sc) st0 sc Hs eq_refl Hd)). cbv beta.
    assert (G2 : getSceneItems (set_scenes (vue_set sid (set_nodes [] sc) (scenes st0)) st0) = None).
    { unfold getSceneItems, set_scenes. simpl.
      rewrite (sceneItemsOf_none _ _ b Hin); [reflexivity |].
      rewrite lookup_vue_set. destruct (String.eqb b sid) eqn:E; [| exact Hb].
      apply String.eqb_eq in E. subst b. rewrite Hs in Hb. discriminate Hb. }
    rewrite (bind_none _ _ _ G2). reflexivity.
Qed.

Lemma unknown_display_id_breaks_queries_witness :
  (setSceneOrder ["bogus"; "scene_0x0"] ;; getSceneItems) st_default = None /\
  (setSceneOrder ["bogus"; "scene_0x0"] ;; getSourceScenes "MyColorSource") st_default = None /\
  (setSceneOrder ["bogus"; "scene_0x0"] ;; removeScene "scene_0x0" true) st_default = None.
Proof.
  destruct (lookup "scene_0x0" (scenes st_default)) as [sc |] eqn:L;
    [| vm_compute in L; discriminate L].
  apply (unknown_display_id_breaks_queries st_default _ "bogus" _ _ _ sc).
  - left; reflexivity.
  - vm_compute; reflexivity.
  - exact L.
  - vm_compute in L. injection L as <-. vm_compute. constructor.
  - left; reflexivity.
Defined.

Lemma Forall_vue_set (P : scene -> Prop) k v m :
  Forall (fun p => P (snd p)) m -> P v -> Forall (fun p => P (snd p)) (vue_set k v m).
Proof.
  intros Hm Hv. induction Hm as [| [k' w] m Hw Hm' IH]; simpl.
  - constructor; [exact Hv | constructor].
  - destruct (String.eqb k k'); constructor; auto.
Qed.

Lemma Forall_vue_delete (P : scene -> Prop) k m :
  Forall (fun p => P (snd p)) m -> Forall (fun p => P (snd p)) (vue_delete k m).
Proof.
  intro Hm. apply Forall_forall. intros x Hx. unfold vue_delete in Hx.
  apply filter_In in Hx as [Hx _]. exact (proj1 (Forall_forall _ _) Hm x Hx).
Qed.

Lemma filter_filter_and (f g : item -> bool) l :
  filter f (filter g l) = filter (fun i => g i && f i) l.
Proof.
  induction l as [| i l IH]; simpl; [reflexivity |].
  destruct (g i); simpl; [destruct (f i); simpl; rewrite IH |]; exact IH || reflexivity.
Qed.

Lemma set_nodes_filter_true sk : set_nodes (filter (fun _ => true) (nodes sk)) sk = sk.
Proof.
  assert (E : forall l : list item, filter (fun _ => true) l = l)
    by (induction l; simpl; congruence).
  destruct sk. unfold set_nodes. simpl. rewrite E. reflexivity.
Qed.

Lemma ids_unique l a b :
  NoDup (map sceneItemId l) -> In a l -> In b l -> sceneItemId a = sceneItemId b -> a = b.
Proof.
  induction l as [| i l IH]; simpl; [intros _ [] |].
  intros Hd Ha Hb He. inversion Hd as [| x y Hni Hd']; subst.
  destruct Ha as [<- | Ha], Hb as [<- | Hb]; auto.
  - exfalso. apply Hni. rewrite He. apply in_map. exact Hb.
  - exfalso. apply Hni. rewrite <- He. apply in_map. exact Ha.
Qed.

Lemma remove_refs_filter target L : forall s,
  NoDup (map (fun p => (fst p, sceneItemId (snd p))) L) ->
  (forall k it, In (k, it) L -> sourceId it = target ->
     exists sk, lookup k (scenes s) = Some sk /\ In it (nodes sk) /\
                NoDup (map sceneItemId (nodes sk))) ->
  Forall (fun p => NoDup (map sceneItemId (nodes (snd p)))) (scenes s) ->
  exists s' t, removeItems L target s = Some (tt, s', t) /\
    keys (scenes s') = keys (scenes s) /\ displayOrder s' = displayOrder s /\
    activeSceneId s' = activeSceneId s /\
    Forall (fun p => NoDup (map sceneItemId (nodes (snd p)))) (scenes s') /\
    (forall k, (forall it, In (k, it) L -> sourceId it <> target) ->
       lookup k (scenes s') = lookup k (scenes s)) /\
    (forall k sk', lookup k (scenes s') = Some sk' ->
       exists sk f, lookup k (scenes s) = Some sk /\ sk' = set_nodes (filter f (nodes sk)) sk /\
         (forall i, In i (nodes sk') -> In (k, i) L -> sourceId i <> target) /\
         (forall i, In i (nodes sk) ->
            (forall it, In (k, it) L -> sourceId it = target -> sceneItemId it <> sceneItemId i) ->
            In i (nodes sk'))).
Proof.
  unfold removeItems.
  induction L as [| [k0 it0] L IH]; intros s Hd Hfound Hall.
  - exists s, []. split; [reflexivity |]. do 4 (split; [reflexivity || assumption |]).
    split; [auto |].
    intros k sk' H. exists sk', (fun _ => true). split; [exact H |].
    split; [symmetry; apply set_nodes_filter_true |]. split; [intros _ _ [] | auto].
  - inversion Hd as [| x y Hni Hd']; subst.
    cbn [forM fst snd]. destruct (String.eqb (sourceId it0) target) eqn:Et.
    + apply String.eqb_eq in Et.
      destruct (Hfound k0 it0 (or_introl eq_refl) Et) as (sk0 & Hs0 & Hin0 & Hd0).
      pose proof (find_unique _ _ Hin0 Hd0) as Hf.
      rewrite (bind_some _ _ _ _ _ _ (removeItem_found s k0 sk0 it0 Hs0 Hf)).
      set (g0 := fun i => negb (String.eqb (sceneItemId i) (sceneItemId it0))).
      set (sk1 := set_nodes (filter g0 (nodes sk0)) sk0).
      set (s1 := set_scenes (vue_set k0 sk1 (scenes s)) s).
      assert (L1 : forall k, lookup k (scenes s1) =
                             if String.eqb k k0 then Some sk1 else lookup k (scenes s))
        by (intro k; unfold s1, set_scenes; simpl; apply lookup_vue_set).
      destruct (IH s1 Hd') as (s' & t & E & Hk & Ho & Ha & Hf' & Hl & Hn).
      { intros k it Hin Ht. destruct (Hfound k it (or_intror Hin) Ht) as (sk & Hs & Hi & Hdk).
        rewrite L1. destruct (String.eqb k k0) eqn:Ek.
        - apply String.eqb_eq in Ek. subst k. rewrite Hs0 in Hs. injection Hs as <-.
          exists sk1. split; [reflexivity |]. split.
          + unfold sk1. simpl. apply filter_In. split; [exact Hi |]. unfold g0.
            destruct (String.eqb (sceneItemId it) (sceneItemId it0)) eqn:Ei; [| reflexivity].
            apply String.eqb_eq in Ei. exfalso. apply Hni. rewrite <- Ei.
            apply (in_map (fun p => (fst p, sceneItemId (snd p))) _ (k0, it)). exact Hin.
          + unfold sk1. simpl. apply NoDup_ids_filter. exact Hd0.
        - exists sk. auto. }
      { unfold s1, set_scenes. simpl. apply (Forall_vue_set (fun sk => NoDup (map sceneItemId (nodes sk)))); [exact Hall |].
        unfold sk1. simpl. apply NoDup_ids_filter. exact Hd0. }
      exists s', ([ItemRemoved it0] ++ t)%list. rewrite E. split; [reflexivity |].
      split; [rewrite Hk; unfold s1, set_scenes; simpl;
              exact (keys_vue_set _ _ _ (lookup_some_in_keys _ _ _ Hs0)) |].
      split; [rewrite Ho; reflexivity |]. split; [rewrite Ha; reflexivity |].
      split; [exact Hf' |]. split.
      * intros k Hnot. rewrite Hl by (intros it Hin; apply Hnot; right; exact Hin).
        rewrite L1. destruct (String.eqb k k0) eqn:Ek; [| reflexivity].
        apply String.eqb_eq in Ek. subst k. exfalso. exact (Hnot it0 (or_introl eq_refl) Et).
      * intros k sk' Hs'. destruct (Hn k sk' Hs') as (skm & f & Hsm & Esk & Hcl & Hkp).
        rewrite L1 in Hsm. destruct (String.eqb k k0) eqn:Ek.
        -- apply String.eqb_eq in Ek. subst k. injection Hsm as <-.
           exists sk0, (fun i => g0 i && f i). split; [exact Hs0 |]. split.
           { rewrite Esk. unfold sk1, set_nodes. simpl.
             rewrite filter_filter_and. reflexivity. }
           split.
           ++ intros i Hi [Heq | Hin].
              ** injection Heq as <-. rewrite Esk in Hi. unfold sk1 in Hi. simpl in Hi.
                 apply filter_In in Hi as [Hi _]. apply filter_In in Hi as [_ Hi].
                 unfold g0 in Hi. rewrite String.eqb_refl in Hi. discriminate Hi.
              ** exact (Hcl i Hi Hin).
           ++ intros i Hi Hno. apply Hkp.
              ** unfold sk1. simpl. apply filter_In. split; [exact Hi |]. unfold g0.
                 destruct (String.eqb (sceneItemId i) (sceneItemId it0)) eqn:Ei; [| reflexivity].
                 apply String.eqb_eq in Ei. exfalso.
                 exact (Hno it0 (or_introl eq_refl) Et (eq_sym Ei)).
              ** intros it Hin Ht. exact (Hno it (or_intror Hin) Ht).
        -- exists skm, f. split; [exact Hsm |]. split; [exact Esk |]. split.
           ++ intros i Hi [Heq | Hin].
              ** injection Heq as -> _. rewrite String.eqb_refl in Ek. discriminate Ek.
              ** exact (Hcl i Hi Hin).
           ++ intros i Hi Hno. apply (Hkp i Hi). intros it Hin Ht. exact (Hno it (or_intror Hin) Ht).
    + destruct (IH s Hd') as (s' & t & E & Hk & Ho & Ha & Hf' & Hl & Hn).
      { intros k it Hin Ht. exact (Hfound k it (or_intror Hin) Ht). }
      { exact Hall. }
      exists s', ([] ++ t)%list. unfold bind at 1, ret at 1. rewrite E.
      split; [reflexivity |].
      do 4 (split; [assumption |]). split.
      * intros k Hnot. apply Hl. intros it Hin. apply Hnot. right. exact Hin.
      * intros k sk' Hs'. destruct (Hn k sk' Hs') as (sk & f & Hs & Esk & Hcl & Hkp).
        exists sk, f. split; [exact Hs |]. split; [exact Esk |]. split.
        -- intros i Hi [Heq | Hin].
           ++ injection Heq as -> <-. intro Ht. rewrite Ht, String.eqb_refl in Et. discriminate Et.
           ++ exact (Hcl i Hi Hin).
        -- intros i Hi Hno. apply (Hkp i Hi). intros it Hin Ht. exact (Hno it (or_intror Hin) Ht).
Qed.

Lemma removeScene_tail (s3 : state) (sid : string) (m : scene) :
  exists s4 t,
    (let* st' := get in
     (if String.eqb (activeSceneId st') sid then
        match keys (scenes st') with
        | first :: _ =>
            if String.eqb first "" then ret tt
            else let* _ := makeSceneActive first in ret tt
        | [] => ret tt
        end
      else ret tt) ;;
     emit (SceneRemoved m) ;;
     ret (Some m)) s3 = Some (Some m, s4, t) /\
    scenes s4 = scenes s3 /\ displayOrder s4 = displayOrder s3 /\
    activeSceneId s4 =
      (if String.eqb (activeSceneId s3) sid then
         match keys (scenes s3) with
         | first :: _ => if String.eqb first "" then activeSceneId s3 else first
         | [] => activeSceneId s3
         end
       else activeSceneId s3).
Proof.
  rewrite (bind_some get _ s3 s3 s3 [] eq_refl). cbv beta.
  destruct (String.eqb (activeSceneId s3) sid);
    [destruct (keys (scenes s3)) as [| k ks] eqn:Ek; [| destruct (String.eqb k "")] |];
    try (eexists; eexists; split; [reflexivity | split; [reflexivity | split; reflexivity]]).
  destruct (in_keys_lookup k (scenes s3)) as [sk Hk]; [rewrite Ek; left; reflexivity |].
  assert (Gs : (let* _ := makeSceneActive k in ret tt) s3 =
               Some (tt, set_activeSceneId k s3, [TransitionTo k; SceneSwitched sk]))
    by (rewrite (bind_some _ _ _ _ _ _ (makeSceneActive_existing s3 k sk Hk)); reflexivity).
  rewrite (bind_some _ _ _ _ _ _ Gs).
  eexists; eexists; split; [reflexivity | split; [reflexivity | split; reflexivity]].
Qed.

(** A run of [removeScene] on an existing, removable scene, as the state
    after it. *)
Lemma removeScene_run (st : state) (sid : string) (force : bool) (sc : scene) :
  lookup sid (scenes st) = Some sc ->
  force = true \/ 2 <= List.length (scenes st) ->
  NoDup (displayOrder st) ->
  incl (displayOrder st) (keys (scenes st)) ->
  Forall (fun p => NoDup (map sceneItemId (nodes (snd p)))) (scenes st) ->
  exists st' tr,
    removeScene sid force st = Some (Some (set_nodes [] sc), st', tr) /\
    lookup sid (scenes st') = None /\
    keys (scenes st') = without (keys (scenes st)) sid /\
    displayOrder st' = without (displayOrder st) sid /\
    Forall (fun p => NoDup (map sceneItemId (nodes (snd p)))) (scenes st') /\
    activeSceneId st' =
      (if String.eqb (activeSceneId st) sid then
         match without (keys (scenes st)) sid with
         | first :: _ => if String.eqb first "" then activeSceneId st else first
         | [] => activeSceneId st
         end
       else activeSceneId st) /\
    (forall k, k <> sid -> ~ In k (displayOrder st) ->
       lookup k (scenes st') = lookup k (scenes st)) /\
    (forall k sk', k <> sid -> lookup k (scenes st') = Some sk' ->
       exists sk f, lookup k (scenes st) = Some sk /\ sk' = set_nodes (filter f (nodes sk)) sk /\
         (In k (displayOrder st) ->
            forall i, In i (nodes sk') <-> In i (nodes sk) /\ sourceId i <> sid)).
Proof.
  intros Hs Hrem Hdo Hinc Hall.
  pose proof (fun k sk => Forall_lookup (fun sk => NoDup (map sceneItemId (nodes sk)))
                                        (scenes st) k sk Hall) as Hids.
  unfold removeScene. rewrite (bind_some get _ st st st [] eq_refl). cbv beta.
  rewrite (removeScene_guard_passes _ _ Hrem).
  assert (Gi : getItems sid st = Some (nodes sc, st, []))
    by (unfold getItems, bind, getSceneModel, ret; rewrite Hs; reflexivity).
  rewrite (bind_some _ _ _ _ _ _ Gi). cbv beta.
  set (st1 := set_scenes (vue_set sid (set_nodes [] sc) (scenes st)) st).
  rewrite (bind_some _ _ _ _ _ _ (remove_own_loop sid (nodes sc) st sc Hs eq_refl (Hids _ _ Hs))).
  cbv beta. fold st1.
  assert (L1 : forall k, lookup k (scenes st1) =
                         if String.eqb k sid then Some (set_nodes [] sc) else lookup k (scenes st))
    by (intro k; unfold st1, set_scenes; simpl; apply lookup_vue_set).
  assert (K1 : keys (scenes st1) = keys (scenes st))
    by (unfold st1, set_scenes; simpl; exact (keys_vue_set _ _ _ (lookup_some_in_keys _ _ _ Hs))).
  destruct (sceneItemsOf_some (scenes st1) (displayOrder st1)) as [L HL].
  { intros k Hk. apply in_keys_lookup. rewrite K1. apply Hinc. exact Hk. }
  assert (G2 : getSceneItems st1 = Some (L, st1, [])) by (unfold getSceneItems; rewrite HL; reflexivity).
  rewrite (bind_some _ _ _ _ _ _ G2). cbv beta.
  assert (Hall1 : Forall (fun p => NoDup (map sceneItemId (nodes (snd p)))) (scenes st1)).
  { unfold st1, set_scenes. simpl.
    apply (Forall_vue_set (fun sk => NoDup (map sceneItemId (nodes sk)))); [exact Hall | constructor]. }
  pose proof (fun k sk => Forall_lookup (fun sk => NoDup (map sceneItemId (nodes sk)))
                                        (scenes st1) k sk Hall1) as Hids1.
  destruct (remove_refs_filter sid L st1) as (s2 & t2 & E2 & K2 & O2 & A2 & F2 & P2 & N2).
  { exact (sceneItemsOf_nodup _ _ _ Hdo Hids1 HL). }
  { intros k it Hin _. destruct (sceneItemsOf_in _ _ _ _ _ HL Hin) as [_ (sk & Hk & Hi)].
    exists sk. split; [exact Hk |]. split; [exact Hi | exact (Hids1 _ _ Hk)]. }
  { exact Hall1. }
  rewrite (bind_some _ _ _ _ _ _ E2). cbv beta.
  assert (Hsid2 : lookup sid (scenes s2) = Some (set_nodes [] sc)).
  { rewrite P2; [rewrite L1, String.eqb_refl; reflexivity |].
    intros it Hin. destruct (sceneItemsOf_in _ _ _ _ _ HL Hin) as [_ (sk & Hk & Hi)].
    rewrite L1, String.eqb_refl in Hk. injection Hk as <-. destruct Hi. }
  assert (G3 : getSceneModel sid s2 = Some (set_nodes [] sc, s2, []))
    by (unfold getSceneModel; rewrite Hsid2; reflexivity).
  rewrite (bind_some _ _ _ _ _ _ G3). cbv beta.
  set (s3 := set_displayOrder (without (displayOrder s2) sid) (set_scenes (vue_delete sid (scenes s2)) s2)).
  rewrite (bind_some (REMOVE_SCENE sid) _ s2 tt s3 [] eq_refl). cbv beta.
  destruct (removeScene_tail s3 sid (set_nodes [] sc)) as (s4 & t4 & E4 & S4 & O4 & A4).
  rewrite E4.
  assert (L4 : forall k, lookup k (scenes s4) = if String.eqb k sid then None else lookup k (scenes s2))
    by (intro k; rewrite S4; unfold s3; simpl; apply lookup_vue_delete).
  eexists s4, _. split; [reflexivity |].
  split; [rewrite L4, String.eqb_refl; reflexivity |].
  split; [rewrite S4; unfold s3; simpl; rewrite keys_vue_delete, K2, K1; reflexivity |].
  split; [rewrite O4; unfold s3; simpl; rewrite O2; reflexivity |].
  split; [rewrite S4; unfold s3; simpl;
          exact (Forall_vue_delete (fun sk => NoDup (map sceneItemId (nodes sk))) _ _ F2) |].
  split; [rewrite A4; unfold s3; simpl; rewrite A2, keys_vue_delete, K2, K1; reflexivity |].
  split.
  - intros k Hk Hno. rewrite L4. apply String.eqb_neq in Hk. rewrite Hk.
    rewrite P2; [rewrite L1, Hk; reflexivity |].
    intros it Hin. exfalso. exact (Hno (proj1 (sceneItemsOf_in _ _ _ _ _ HL Hin))).
  - intros k sk' Hk Hl. rewrite L4 in Hl. apply String.eqb_neq in Hk. rewrite Hk in Hl.
    destruct (N2 k sk' Hl) as (sk & f & Hl1 & Esk & Hcl & Hkp).
    rewrite L1, Hk in Hl1. exists sk, f. split; [exact Hl1 |]. split; [exact Esk |].
    intros Ho i. split.
    + intro Hi. assert (Hi0 : In i (nodes sk))
        by (rewrite Esk in Hi; simpl in Hi; apply filter_In in Hi as [Hi _]; exact Hi).
      split; [exact Hi0 |]. apply (Hcl i Hi).
      refine (sceneItemsOf_complete _ _ L k sk i HL Ho _ Hi0). rewrite L1, Hk. exact Hl1.
    + intros [Hi Hsrc]. apply (Hkp i Hi). intros it Hin Ht Heq.
      destruct (sceneItemsOf_in _ _ _ _ _ HL Hin) as [_ (sk0 & Hk0 & Hit)].
      rewrite L1, Hk, Hl1 in Hk0. injection Hk0 as <-.
      rewrite (ids_unique _ _ _ (Hids _ _ Hl1) Hit Hi Heq) in Ht. exact (Hsrc Ht).
Qed.

Lemma ltb_length_filter {A} (p : A -> bool) l :
  Nat.ltb 0 (List.length (filter p l)) = existsb p l.
Proof.
  induction l as [| x l IH]; simpl; [reflexivity |].
  destruct (p x); simpl; [reflexivity | exact IH].
Qed.

Lemma sceneList_all_some (st : state) :
  incl (displayOrder st) (keys (scenes st)) ->
  sceneList st = Some (map Some (displayOrder st), st, []).
Proof.
  intro Hinc. unfold sceneList. f_equal. f_equal. f_equal.
  apply map_ext_in. intros k Hk.
  destruct (in_keys_lookup k (scenes st) (Hinc k Hk)) as [v Hv]. rewrite Hv. reflexivity.
Qed.

Lemma sourceScenesLoop_filter (src : string) (st : state) (l : list string) :
  forall acc,
  (forall k, In k l -> exists sk, lookup k (scenes st) = Some sk) ->
  sourceScenesLoop src (map Some l) acc st =
    Some ((acc ++ filter (has_source st src) l)%list, st, []).
Proof.
  induction l as [| k l IH]; intros acc Hl; simpl.
  - rewrite app_nil_r. reflexivity.
  - destruct (Hl k (or_introl eq_refl)) as [sk Hk].
    assert (Gi : getItems k st = Some (nodes sk, st, []))
      by (unfold getItems, bind, getSceneModel, ret; rewrite Hk; reflexivity).
    rewrite (bind_some _ _ _ _ _ _ Gi). cbv beta.
    rewrite IH by (intros k' Hk'; exact (Hl k' (or_intror Hk'))).
    rewrite ltb_length_filter. unfold has_source at 2. rewrite Hk.
    destruct (existsb _ (nodes sk)); simpl; [rewrite <- app_assoc |]; reflexivity.
Qed.

Lemma filter_all_false {A} (p : A -> bool) l :
  (forall x, In x l -> p x = false) -> filter p l = [].
Proof.
  induction l as [| x l IH]; intro H; simpl; [reflexivity |].
  rewrite (H x (or_introl eq_refl)). apply IH. intros y Hy. exact (H y (or_intror Hy)).
Qed.

Lemma incl_without (xs ys : list string) (a : string) :
  incl xs ys -> incl (without xs a) (without ys a).
Proof.
  unfold without. intros H x Hx. apply filter_In in Hx as [Hx Hn].
  apply filter_In. split; [exact (H x Hx) | exact Hn].
Qed.

Lemma In_without (xs : list string) (a x : string) :
  In x (without xs a) <-> In x xs /\ x <> a.
Proof.
  unfold without. rewrite filter_In, Bool.negb_true_iff, String.eqb_neq. reflexivity.
Qed.

(** X3: a successful [removeScene] of an existing scene returns that scene
    with its own nodes already removed, deletes its key, and keeps the
    invariants of the store: the display order has no duplicate and names
    only scenes, and the node ids of each scene are distinct. *)
Theorem removeScene_keeps_invariants (st : state) (sid : string) (force : bool) (sc : scene) :
  lookup sid (scenes st) = Some sc ->
  force = true \/ 2 <= List.length (scenes st) ->
  NoDup (displayOrder st) ->
  incl (displayOrder st) (keys (scenes st)) ->
  Forall (fun p => NoDup (map sceneItemId (nodes (snd p)))) (scenes st) ->
  exists st' tr,
    removeScene sid force st = Some (Some (set_nodes [] sc), st', tr) /\
    lookup sid (scenes st') = None /\
    keys (scenes st') = without (keys (scenes st)) sid /\
    NoDup (displayOrder st') /\
    incl (displayOrder st') (keys (scenes st')) /\
    Forall (fun p => NoDup (map sceneItemId (nodes (snd p)))) (scenes st').
Proof.
  intros Hs Hrem Hdo Hinc Hall.
  destruct (removeScene_run st sid force sc Hs Hrem Hdo Hinc Hall)
    as (st' & tr & E & Hn & K & O & F & _ & _ & _).
  exists st', tr. split; [exact E |]. split; [exact Hn |]. split; [exact K |].
  split; [rewrite O; apply NoDup_filter; exact Hdo |].
  split; [rewrite O, K; apply incl_without; exact Hinc | exact F].
Qed.

(** X4: [removeScene] removes from every other scene of the display order
    exactly the nodes whose source is the removed scene, keeping that
    scene's id, name and resource id; a scene outside the display order
    is left as it was. *)
Theorem removeScene_strips_references (st : state) (sid : string) (force : bool) (sc : scene) :
  lookup sid (scenes st) = Some sc ->
  force = true \/ 2 <= List.length (scenes st) ->
  NoDup (displayOrder st) ->
  incl (displayOrder st) (keys (scenes st)) ->
  Forall (fun p => NoDup (map sceneItemId (nodes (snd p)))) (scenes st) ->
  exists st' tr,
    removeScene sid force st = Some (Some (set_nodes [] sc), st', tr) /\
    displayOrder st' = without (displayOrder st) sid /\
    (forall k, k <> sid -> In k (displayOrder st) ->
       exists sk sk', lookup k (scenes st) = Some sk /\ lookup k (scenes st') = Some sk' /\
         id sk' = id sk /\ name sk' = name sk /\ resourceId sk' = resourceId sk /\
         (forall i, In i (nodes sk') <-> In i (nodes sk) /\ sourceId i <> sid)) /\
    (forall k, k <> sid -> ~ In k (displayOrder st) ->
       lookup k (scenes st') = lookup k (scenes st)).
Proof.
  intros Hs Hrem Hdo Hinc Hall.
  destruct (removeScene_run st sid force sc Hs Hrem Hdo Hinc Hall)
    as (st' & tr & E & _ & K & O & _ & _ & U & N).
  exists st', tr. split; [exact E |]. split; [exact O |]. split; [| exact U].
  intros k Hk Ho.
  destruct (in_keys_lookup k (scenes st')) as [sk' Hl'].
  { rewrite K. apply In_without. split; [exact (Hinc k Ho) | exact Hk]. }
  destruct (N k sk' Hk Hl') as (sk & f & Hl & Esk & Hi).
  exists sk, sk'. subst sk'. repeat split; try assumption; apply Hi; assumption.
Qed.

(** X5: once [removeScene(id)] has run, [getSourceScenes(id)] finds no
    scene using the removed scene as a source, and changes nothing. *)
Theorem removeScene_then_no_source_scenes (st : state) (sid : string) (force : bool) (sc : scene) :
  lookup sid (scenes st) = Some sc ->
  force = true \/ 2 <= List.length (scenes st) ->
  NoDup (displayOrder st) ->
  incl (displayOrder st) (keys (scenes st)) ->
  Forall (fun p => NoDup (map sceneItemId (nodes (snd p)))) (scenes st) ->
  exists st' tr,
    removeScene sid force st = Some (Some (set_nodes [] sc), st', tr) /\
    getSourceScenes sid st' = Some ([], st', []).
Proof.
  intros Hs Hrem Hdo Hinc Hall.
  destruct (removeScene_run st sid force sc Hs Hrem Hdo Hinc Hall)
    as (st' & tr & E & _ & K & O & _ & _ & _ & N).
  exists st', tr. split; [exact E |].
  assert (Hinc' : incl (displayOrder st') (keys (scenes st')))
    by (rewrite O, K; apply incl_without; exact Hinc).
  unfold getSourceScenes. rewrite (bind_some _ _ _ _ _ _ (sceneList_all_some st' Hinc')).
  cbv beta. rewrite sourceScenesLoop_filter by (intros k Hk; exact (in_keys_lookup k _ (Hinc' k Hk))).
  simpl. f_equal. f_equal. f_equal.
  apply filter_all_false.
  intros k Hk. rewrite O in Hk. apply In_without in Hk as [Ho Hne].
  unfold has_source.
  destruct (lookup k (scenes st')) as [sk'|] eqn:Hl'; [| reflexivity].
  destruct (N k sk' Hne Hl') as (sk & f & _ & _ & Hi).
  apply Bool.not_true_iff_false. intro Hex. apply existsb_exists in Hex as [i [Hin Heq]].
  apply String.eqb_eq in Heq. exact (proj2 (proj1 (Hi Ho i) Hin) Heq).
Qed.

(** X6: [getSourceScenes(sourceId)], on a display order that names only
    scenes, returns in display order the scenes holding at least one node
    of that source, and changes nothing. *)
Theorem getSourceScenes_in_display_order (st : state) (src : string) :
  incl (displayOrder st) (keys (scenes st)) ->
  getSourceScenes src st = Some (filter (has_source st src) (displayOrder st), st, []).
Proof.
  intro Hinc. unfold getSourceScenes.
  rewrite (bind_some _ _ _ _ _ _ (sceneList_all_some st Hinc)). cbv beta.
  rewrite sourceScenesLoop_filter by (intros k Hk; exact (in_keys_lookup k _ (Hinc k Hk))).
  reflexivity.
Qed.

Ltac st_A_active_hyps :=
  first [ solve [right; vm_compute; repeat constructor]
        | solve [vm_compute; repeat constructor; simpl; intuition discriminate]
        | solve [intros k Hk; vm_compute in Hk |- *; intuition] ].

Lemma removeScene_keeps_invariants_witness :
  exists sc, lookup "scene_0x1" (scenes st_A_active) = Some sc /\
  exists st' tr,
    removeScene "scene_0x1" false st_A_active = Some (Some (set_nodes [] sc), st', tr) /\
    lookup "scene_0x1" (scenes st') = None /\
    keys (scenes st') = without (keys (scenes st_A_active)) "scene_0x1" /\
    NoDup (displayOrder st') /\
    incl (displayOrder st') (keys (scenes st')) /\
    Forall (fun p => NoDup (map sceneItemId (nodes (snd p)))) (scenes st').
Proof.
  destruct (lookup "scene_0x1" (scenes st_A_active)) as [sc |] eqn:L;
    [| vm_compute in L; discriminate L].
  exists sc. split; [reflexivity |].
  apply (removeScene_keeps_invariants st_A_active "scene_0x1" false sc L); st_A_active_hyps.
Defined.

Lemma removeScene_strips_references_witness :
  exists sc, lookup "scene_0x1" (scenes st_A_active) = Some sc /\
  exists st' tr,
    removeScene "scene_0x1" false st_A_active = Some (Some (set_nodes [] sc), st', tr) /\
    displayOrder st' = without (displayOrder st_A_active) "scene_0x1" /\
    (forall k, k <> "scene_0x1" -> In k (displayOrder st_A_active) ->
       exists sk sk', lookup k (scenes st_A_active) = Some sk /\ lookup k (scenes st') = Some sk' /\
         id sk' = id sk /\ name sk' = name sk /\ resourceId sk' = resourceId sk /\
         (forall i, In i (nodes sk') <-> In i (nodes sk) /\ sourceId i <> "scene_0x1")) /\
    (forall k, k <> "scene_0x1" -> ~ In k (displayOrder st_A_active) ->
       lookup k (scenes st') = lookup k (scenes st_A_active)).
Proof.
  destruct (lookup "scene_0x1" (scenes st_A_active)) as [sc |] eqn:L;
    [| vm_compute in L; discriminate L].
  exists sc. split; [reflexivity |].
  apply (removeScene_strips_references st_A_active "scene_0x1" false sc L); st_A_active_hyps.
Defined.

Lemma removeScene_then_no_source_scenes_witness :
  exists sc, lookup "scene_0x1" (scenes st_A_active) = Some sc /\
  getSourceScenes "scene_0x1" st_A_active = Some (["scene_0x3"], st_A_active, []) /\
  exists st' tr,
    removeScene "scene_0x1" false st_A_active = Some (Some (set_nodes [] sc), st', tr) /\
    getSourceScenes "scene_0x1" st' = Some ([], st', []).
Proof.
  destruct (lookup "scene_0x1" (scenes st_A_active)) as [sc |] eqn:L;
    [| vm_compute in L; discriminate L].
  exists sc. split; [reflexivity |]. split; [vm_compute; reflexivity |].
  apply (removeScene_then_no_source_scenes st_A_active "scene_0x1" false sc L); st_A_active_hyps.
Defined.

Lemma getSourceScenes_in_display_order_witness :
  incl (displayOrder st_nested) (keys (scenes st_nested)) /\
  getSourceScenes "scene_0x2" st_nested =
    Some (filter (has_source st_nested "scene_0x2") (displayOrder st_nested), st_nested, []) /\
  filter (has_source st_nested "scene_0x2") (displayOrder st_nested) = ["scene_0x1"].
Proof.
  assert (H : incl (displayOrder st_nested) (keys (scenes st_nested)))
    by (intros k Hk; vm_compute in Hk |- *; intuition).
  split; [exact H |]. split; [exact (getSourceScenes_in_display_order st_nested "scene_0x2" H) |].
  vm_compute. reflexivity.
Defined.

Lemma lookup_app_single k a v m :
  lookup k (m ++ [(a, v)])%list =
    match lookup k m with Some x => Some x | None => if String.eqb k a then Some v else None end.
Proof.
  induction m as [| [k' w] m IH]; simpl; [destruct (String.eqb k a); reflexivity |].
  destruct (String.eqb k k'); [reflexivity | exact IH].
Qed.

Lemma vue_delete_fresh k m : lookup k m = None -> vue_delete k m = m.
Proof.
  unfold vue_delete. induction m as [| [k' w] m IH]; simpl; [reflexivity |].
  destruct (String.eqb k k') eqn:E; [discriminate |]. intro H.
  rewrite String.eqb_sym, E. simpl. rewrite (IH H). reflexivity.
Qed.

Lemma without_absent xs a : ~ In a xs -> without xs a = xs.
Proof.
  unfold without. induction xs as [| x xs IH]; simpl; [reflexivity |]. intro H.
  destruct (String.eqb x a) eqn:E.
  - apply String.eqb_eq in E. subst. exfalso. exact (H (or_introl eq_refl)).
  - simpl. rewrite IH; [reflexivity | intro H'; exact (H (or_intror H'))].
Qed.

Lemma removeItems_noop (L : list (string * item)) (target : string) (s : state) :
  (forall p, In p L -> sourceId (snd p) <> target) ->
  removeItems L target s = Some (tt, s, []).
Proof.
  unfold removeItems. induction L as [| p L IH]; intro H; simpl; [reflexivity |].
  assert (E : String.eqb (sourceId (snd p)) target = false)
    by (apply String.eqb_neq; exact (H p (or_introl eq_refl))).
  rewrite E. unfold bind at 1, ret at 1. rewrite IH by (intros q Hq; exact (H q (or_intror Hq))).
  reflexivity.
Qed.

(** The run of [createScene(name)] with a generated, fresh id. *)
Lemma createScene_fresh_state (st : state) (nm : string) :
  let G := ("scene_" ++ HexString.of_nat (uid st))%string in
  lookup G (scenes st) = None ->
  createScene nm noOptions st =
    Some (Some (mkScene G nm
                  ("Scene" ++ json_stringify_list1 G) []),
          mkState (if String.eqb (activeSceneId st) "" then G
                   else activeSceneId st)
                  (displayOrder st ++ [G])%list
                  (scenes st ++ [(G,
                     mkScene G nm
                       ("Scene" ++ json_stringify_list1 G) [])])%list
                  (registered_sources st ++ [G])%list
                  (S (uid st)),
          [SceneAdded (mkScene G nm
                  ("Scene" ++ json_stringify_list1 G) [])]).
Proof.
  cbv zeta. intro Hfresh.
  unfold createScene, bind, getUniqueId, ret, ADD_SCENE, modify, registerSource,
    emit, getSceneModel, getSceneByName, noOptions. simpl.
  rewrite (vue_set_fresh _ _ _ Hfresh), (lookup_app_fresh _ _ _ Hfresh).
  cbn [scenes]. rewrite find_by_name_last by reflexivity. cbn [id].
  rewrite (lookup_app_fresh _ _ _ Hfresh). reflexivity.
Qed.

(** X7: creating a scene with a generated id and removing it again, while
    another scene is active, gives back the scenes, the display order and
    the active scene of before; only the scene's source stays registered
    and the id counter has moved. The trace is the scene-added and the
    scene-removed event of the (empty) scene. *)
Theorem createScene_removeScene_round_trip (st : state) (nm : string) (a : scene) :
  let cid := ("scene_" ++ HexString.of_nat (uid st))%string in
  let sc := mkScene cid nm ("Scene" ++ json_stringify_list1 cid) [] in
  activeSceneId st <> "" ->
  lookup (activeSceneId st) (scenes st) = Some a ->
  lookup cid (scenes st) = None ->
  ~ In cid (displayOrder st) ->
  incl (displayOrder st) (keys (scenes st)) ->
  (forall k sk i, lookup k (scenes st) = Some sk -> In i (nodes sk) -> sourceId i <> cid) ->
  (createScene nm noOptions ;; removeScene cid false) st =
    Some (Some sc,
          mkState (activeSceneId st) (displayOrder st) (scenes st)
                  (registered_sources st ++ [cid])%list (S (uid st)),
          [SceneAdded sc; SceneRemoved sc]).
Proof.
  cbv zeta. intros Hact Ha Hfresh Hndo Hinc Hsrc.
  set (cid := ("scene_" ++ HexString.of_nat (uid st))%string) in *.
  set (sc := mkScene cid nm ("Scene" ++ json_stringify_list1 cid) []).
  pose proof (createScene_fresh_state st nm Hfresh) as Ec. fold cid sc in Ec.
  apply String.eqb_neq in Hact. rewrite Hact in Ec.
  set (st1 := mkState (activeSceneId st) (displayOrder st ++ [cid])%list
                      (scenes st ++ [(cid, sc)])%list (registered_sources st ++ [cid])%list
                      (S (uid st))) in Ec.
  rewrite (bind_some _ _ _ _ _ _ Ec). cbv beta.
  assert (L1 : forall k, lookup k (scenes st1) =
           match lookup k (scenes st) with Some x => Some x
           | None => if String.eqb k cid then Some sc else None end)
    by (intro k; apply lookup_app_single).
  assert (Hne : String.eqb (activeSceneId st) cid = false).
  { apply String.eqb_neq. intro E. rewrite E, Hfresh in Ha. discriminate. }
  unfold removeScene. rewrite (bind_some get _ st1 st1 st1 [] eq_refl). cbv beta.
  rewrite (removeScene_guard_passes st1 false).
  2:{ right. unfold st1. cbn [scenes]. rewrite length_app. simpl.
      destruct (scenes st) as [| p m]; [discriminate Ha | simpl; lia]. }
  assert (Lc : lookup cid (scenes st1) = Some sc) by (rewrite L1, Hfresh, String.eqb_refl; reflexivity).
  assert (Gi : getItems cid st1 = Some ([], st1, []))
    by (unfold getItems, bind, getSceneModel, ret; rewrite Lc; reflexivity).
  rewrite (bind_some _ _ _ _ _ _ Gi). cbv beta.
  rewrite (bind_some (forM [] _) _ st1 tt st1 [] eq_refl). cbv beta.
  destruct (sceneItemsOf_some (scenes st1) (displayOrder st1)) as [L HL].
  { intros k Hk. unfold st1 in Hk. cbn [displayOrder] in Hk. apply in_app_or in Hk as [Hk | [<- | []]].
    - destruct (in_keys_lookup k (scenes st) (Hinc k Hk)) as [v Hv]. exists v. rewrite L1, Hv. reflexivity.
    - exists sc. exact Lc. }
  assert (G2 : getSceneItems st1 = Some (L, st1, [])) by (unfold getSceneItems; rewrite HL; reflexivity).
  rewrite (bind_some _ _ _ _ _ _ G2). cbv beta.
  assert (E3 : removeItems L cid st1 = Some (tt, st1, [])).
  { apply removeItems_noop. intros [k it] Hin. simpl.
    destruct (sceneItemsOf_in _ _ _ _ _ HL Hin) as [_ (sk & Hk & Hi)].
    rewrite L1 in Hk. destruct (lookup k (scenes st)) as [x |] eqn:Hx.
    - injection Hk as <-. exact (Hsrc k x it Hx Hi).
    - destruct (String.eqb k cid); [injection Hk as <-; destruct Hi | discriminate]. }
  rewrite (bind_some _ _ _ _ _ _ E3). cbv beta.
  assert (G3 : getSceneModel cid st1 = Some (sc, st1, []))
    by (unfold getSceneModel; rewrite Lc; reflexivity).
  rewrite (bind_some _ _ _ _ _ _ G3). cbv beta.
  assert (E4 : REMOVE_SCENE cid st1 =
          Some (tt, mkState (activeSceneId st) (displayOrder st) (scenes st)
                            (registered_sources st ++ [cid])%list (S (uid st)), [])).
  { assert (Dv : vue_delete cid (scenes st ++ [(cid, sc)])%list = scenes st).
    { unfold vue_delete. rewrite filter_app. simpl. rewrite String.eqb_refl. simpl.
      rewrite app_nil_r. exact (vue_delete_fresh _ _ Hfresh). }
    assert (Dw : without (displayOrder st ++ [cid])%list cid = displayOrder st).
    { unfold without. rewrite filter_app. simpl. rewrite String.eqb_refl. simpl.
      rewrite app_nil_r. exact (without_absent _ _ Hndo). }
    unfold REMOVE_SCENE, modify, st1, set_displayOrder, set_scenes.
    cbn [displayOrder scenes activeSceneId registered_sources uid]. rewrite Dv, Dw. reflexivity. }
  rewrite (bind_some _ _ _ _ _ _ E4). cbv beta.
  rewrite (bind_some get _ _ _ _ [] eq_refl). cbv beta. cbn [activeSceneId]. rewrite Hne.
  reflexivity.
Qed.

Lemma createScene_removeScene_round_trip_witness :
  exists a, lookup (activeSceneId st_one_item) (scenes st_one_item) = Some a /\
  (createScene "Temp" noOptions ;; removeScene "scene_0x2" false) st_one_item =
    Some (Some (mkScene "scene_0x2" "Temp" ("Scene" ++ json_stringify_list1 "scene_0x2") []),
          mkState (activeSceneId st_one_item) (displayOrder st_one_item) (scenes st_one_item)
                  (registered_sources st_one_item ++ ["scene_0x2"])%list (S (uid st_one_item)),
          [SceneAdded (mkScene "scene_0x2" "Temp" ("Scene" ++ json_stringify_list1 "scene_0x2") []);
           SceneRemoved (mkScene "scene_0x2" "Temp" ("Scene" ++ json_stringify_list1 "scene_0x2") [])]).
Proof.
  destruct (lookup (activeSceneId st_one_item) (scenes st_one_item)) as [a |] eqn:L;
    [| vm_compute in L; discriminate L].
  exists a. split; [reflexivity |].
  apply (createScene_removeScene_round_trip st_one_item "Temp" a).
  - vm_compute. discriminate.
  - exact L.
  - vm_compute. reflexivity.
  - vm_compute. intuition discriminate.
  - intros k Hk. vm_compute in Hk |- *. intuition.
  - intros k sk i Hk Hi.
    refine (Forall_lookup (fun sk => forall i, In i (nodes sk) -> sourceId i <> "scene_0x2")
              (scenes st_one_item) k sk _ Hk i Hi).
    vm_compute. repeat constructor. intros j [<- | []]. discriminate.
Defined.

Lemma getSceneItemLoop_first (iid : string) (s : state) (k0 : string) (it0 : item) (l : list string) :
  In k0 l ->
  getItem k0 iid s = Some (Some it0, s, []) ->
  (forall k, k <> k0 -> In k l -> getItem k iid s = Some (None, s, [])) ->
  getSceneItemLoop iid (map Some l) s = Some (Some (k0, it0), s, []).
Proof.
  induction l as [| k l IH]; intros Hin H0 Hk; [destruct Hin |]. simpl.
  destruct (String.eqb_spec k k0) as [-> | Hne].
  - rewrite (bind_some _ _ _ _ _ _ H0). reflexivity.
  - rewrite (bind_some _ _ _ _ _ _ (Hk k Hne (or_introl eq_refl))). cbv beta.
    destruct Hin as [E | Hin]; [congruence |].
    rewrite IH; [reflexivity | exact Hin | exact H0 |].
    intros k' Hk' Hin'. exact (Hk k' Hk' (or_intror Hin')).
Qed.

Lemma find_fresh_id (u : nat) (l : list item) :
  ids_below u l ->
  find (fun i => String.eqb (sceneItemId i) (HexString.of_nat u)) l = None.
Proof.
  intro H. destruct (find _ l) as [x |] eqn:E; [| reflexivity].
  apply find_some in E as [Hx Heq]. apply String.eqb_eq in Heq.
  destruct (H x Hx) as (v & Hv & Hid). rewrite Hid in Heq.
  apply hex_of_nat_inj in Heq. lia.
Qed.

(** X8: when every item id of the store is a generated id older than the
    counter, [getSceneItem] on the id of the item just added by
    [addSource] to a scene of the display order finds that item in that
    scene, and changes nothing. *)
Theorem addSource_then_getSceneItem (st : state) (target src : string) (sc : scene)
  (ni : item) (st' : state) (tr : list effect) :
  lookup target (scenes st) = Some sc ->
  In target (displayOrder st) ->
  incl (displayOrder st) (keys (scenes st)) ->
  (forall k sk, lookup k (scenes st) = Some sk -> ids_below (uid st) (nodes sk)) ->
  addSource target src st = Some (Some ni, st', tr) ->
  getSceneItem (sceneItemId ni) st' = Some (Some (target, ni), st', []).
Proof.
  intros Hs Hin Hinc Hbelow E.
  destruct (addSource_some target src st st' ni tr sc Hs E) as [Eni Est]. subst st'.
  set (st' := mkState _ _ _ _ _).
  assert (L' : forall k, lookup k (scenes st') =
                 if String.eqb k target then Some (set_nodes (ni :: nodes sc) sc) else lookup k (scenes st))
    by (intro k; apply lookup_vue_set).
  assert (Hinc' : incl (displayOrder st') (keys (scenes st'))).
  { unfold st'. cbn [displayOrder scenes].
    rewrite (keys_vue_set _ _ _ (lookup_some_in_keys _ _ _ Hs)). exact Hinc. }
  unfold getSceneItem. rewrite (bind_some _ _ _ _ _ _ (sceneList_all_some st' Hinc')). cbv beta.
  rewrite getSceneItemLoop_first with (k0 := target) (it0 := ni); [reflexivity | | |].
  - exact Hin.
  - unfold getItem. rewrite (bind_some (getSceneModel target) _ st' (set_nodes (ni :: nodes sc) sc) st' []).
    + simpl. rewrite String.eqb_refl. reflexivity.
    + unfold getSceneModel. rewrite L', String.eqb_refl. reflexivity.
  - intros k Hk Hkin. apply String.eqb_neq in Hk.
    assert (Hl := L' k). rewrite Hk in Hl.
    destruct (lookup k (scenes st)) as [sk |] eqn:Hsk.
    + unfold getItem. rewrite (bind_some (getSceneModel k) _ st' sk st' []).
      * cbv beta. unfold ret. rewrite Eni. simpl. rewrite (find_fresh_id _ _ (Hbelow k sk Hsk)).
        reflexivity.
      * unfold getSceneModel. rewrite Hl. reflexivity.
    + exfalso. destruct (in_keys_lookup k (scenes st) (Hinc k Hkin)) as [v Hv]. congruence.
Qed.

Lemma addSource_then_getSceneItem_witness :
  exists ni st' tr,
    addSource "scene_0x0" "Image2" st_image1 = Some (Some ni, st', tr) /\
    sourceId ni = "Image2" /\
    getSceneItem (sceneItemId ni) st' = Some (Some ("scene_0x0", ni), st', []).
Proof.
  destruct (addSource "scene_0x0" "Image2" st_image1) as [[[[ni |] st'] tr] |] eqn:E;
    [| vm_compute in E; discriminate E | vm_compute in E; discriminate E].
  exists ni, st', tr. split; [reflexivity |].
  destruct (lookup "scene_0x0" (scenes st_image1)) as [sc |] eqn:L; [| vm_compute in L; discriminate L].
  split.
  - pose proof E as E'. vm_compute in E'. injection E' as <- _ _. reflexivity.
  - apply (addSource_then_getSceneItem st_image1 "scene_0x0" "Image2" sc ni st' tr L).
    + vm_compute. left. reflexivity.
    + intros k Hk. vm_compute in Hk |- *. intuition.
    + intros k sk Hk.
      refine (Forall_lookup (fun sk => ids_below (uid st_image1) (nodes sk))
                (scenes st_image1) k sk _ Hk).
      vm_compute. repeat constructor. intros x [<- | []]. exists 1. split; [lia | reflexivity].
    + exact E.
Defined.

(** X9: [createScene(name, { sceneId })] with the id of an existing scene
    overwrites that scene in place with a fresh empty record (its nodes are
    dropped), keeps the set of keys, appends the id to the display order a
    second time and registers its source a second time. *)
Theorem createScene_existing_id_overwrites (st : state) (nm s : string) (old : scene) :
  s <> "" ->
  lookup s (scenes st) = Some old ->
  exists r st',
    createScene nm (mkOptions (Some s) None false) st =
      Some (r, st', [SceneAdded (mkScene s nm ("Scene" ++ json_stringify_list1 s) [])]) /\
    lookup s (scenes st') = Some (mkScene s nm ("Scene" ++ json_stringify_list1 s) []) /\
    keys (scenes st') = keys (scenes st) /\
    displayOrder st' = (displayOrder st ++ [s])%list /\
    registered_sources st' = (registered_sources st ++ [s])%list /\
    activeSceneId st' = (if String.eqb (activeSceneId st) "" then s else activeSceneId st) /\
    uid st' = uid st.
Proof.
  intros Hne Hs. apply String.eqb_neq in Hne.
  unfold createScene, bind, ret, ADD_SCENE, modify, registerSource,
    emit, getSceneModel, getSceneByName. cbn [o_sceneId o_duplicateSourcesFromScene o_makeActive].
  rewrite Hne. unfold modify. cbv beta iota. cbn [scenes]. rewrite lookup_vue_set_same.
  eexists; eexists; split; [reflexivity |]. cbn.
  split; [apply lookup_vue_set_same |].
  split; [exact (keys_vue_set _ _ _ (lookup_some_in_keys _ _ _ Hs)) |].
  repeat split; reflexivity.
Qed.

Lemma find_by_name_keep (nm : string) (m : list (string * scene)) (acc : option string) :
  Forall (fun p => name (snd p) <> nm) m ->
  fold_left (fun acc (p : string * scene) => if String.eqb (name (snd p)) nm then Some (id (snd p)) else acc) m acc = acc.
Proof.
  intro H. revert acc. induction H as [| p m Hp _ IH]; intro acc; simpl; [reflexivity |].
  apply String.eqb_neq in Hp. rewrite Hp. apply IH.
Qed.

(** X10: [getSceneByName(name)] returns [null] when no scene has that
    name, and changes nothing. *)
Theorem getSceneByName_no_match (st : state) (nm : string) :
  Forall (fun p => name (snd p) <> nm) (scenes st) ->
  getSceneByName nm st = Some (None, st, []).
Proof.
  intro H. unfold getSceneByName, find_by_name. rewrite (find_by_name_keep _ _ _ H). reflexivity.
Qed.

(** X11: when several scenes share a name, [getSceneByName(name)] picks
    the last of them in key order, and returns the scene stored under
    that record's [id] field (not under its key). *)
Theorem getSceneByName_last_match (st : state) (nm : string)
  (m1 m2 : list (string * scene)) (k : string) (sc : scene) :
  scenes st = (m1 ++ (k, sc) :: m2)%list ->
  name sc = nm ->
  Forall (fun p => name (snd p) <> nm) m2 ->
  getSceneByName nm st = Some (lookup (id sc) (scenes st), st, []).
Proof.
  intros Hm Hn H2. unfold getSceneByName, find_by_name.
  rewrite Hm at 1. rewrite fold_left_app. simpl. rewrite Hn, String.eqb_refl.
  rewrite (find_by_name_keep _ _ _ H2). reflexivity.
Qed.

(** X12: the scene list ([get scenes()] / [getScenes()]) after
    [createScene(name)] with a fresh generated id is the list of before
    with the new scene appended. *)
Theorem createScene_appends_to_scene_list (st : state) (nm : string) (l : list (option string)) :
  let cid := ("scene_" ++ HexString.of_nat (uid st))%string in
  lookup cid (scenes st) = None ->
  ~ In cid (displayOrder st) ->
  sceneList st = Some (l, st, []) ->
  exists r st' tr,
    createScene nm noOptions st = Some (r, st', tr) /\
    sceneList st' = Some ((l ++ [Some cid])%list, st', []).
Proof.
  cbv zeta. intros Hfresh Hndo Hl.
  pose proof (createScene_fresh_state st nm Hfresh) as Ec. cbv zeta in Ec.
  do 3 eexists. split; [exact Ec |].
  set (cid := ("scene_" ++ HexString.of_nat (uid st))%string) in *.
  unfold sceneList in *. cbn [scenes displayOrder]. injection Hl as <-.
  rewrite map_app. cbn [map]. rewrite lookup_app_single.
  rewrite Hfresh, String.eqb_refl. f_equal. f_equal. f_equal. f_equal.
  apply map_ext_in. intros k Hk. rewrite lookup_app_single.
  destruct (lookup k (scenes st)); [reflexivity |].
  destruct (String.eqb_spec k cid) as [-> | _];
    [contradiction | reflexivity].
Qed.


Lemma createScene_existing_id_overwrites_witness :
  exists old, lookup "scene_0x0" (scenes st_one_item) = Some old /\ nodes old <> [] /\
  exists r st',
    createScene "Fresh" (mkOptions (Some "scene_0x0") None false) st_one_item =
      Some (r, st', [SceneAdded (mkScene "scene_0x0" "Fresh" ("Scene" ++ json_stringify_list1 "scene_0x0") [])]) /\
    lookup "scene_0x0" (scenes st') =
      Some (mkScene "scene_0x0" "Fresh" ("Scene" ++ json_stringify_list1 "scene_0x0") []) /\
    keys (scenes st') = keys (scenes st_one_item) /\
    displayOrder st' = (displayOrder st_one_item ++ ["scene_0x0"])%list /\
    registered_sources st' = (registered_sources st_one_item ++ ["scene_0x0"])%list /\
    activeSceneId st' = (if String.eqb (activeSceneId st_one_item) "" then "scene_0x0"
                         else activeSceneId st_one_item) /\
    uid st' = uid st_one_item.
Proof.
  destruct (lookup "scene_0x0" (scenes st_one_item)) as [old |] eqn:L;
    [| vm_compute in L; discriminate L].
  exists old. split; [reflexivity |].
  split; [vm_compute in L; injection L as <-; discriminate |].
  apply (createScene_existing_id_overwrites st_one_item "Fresh" "scene_0x0" old); [discriminate | exact L].
Defined.

Lemma getSceneByName_no_match_witness :
  Forall (fun p => name (snd p) <> "Nope") (scenes st_abc) /\
  getSceneByName "Nope" st_abc = Some (None, st_abc, []).
Proof.
  assert (H : Forall (fun p => name (snd p) <> "Nope") (scenes st_abc))
    by (vm_compute; repeat constructor; discriminate).
  split; [exact H | exact (getSceneByName_no_match st_abc "Nope" H)].
Defined.

Lemma getSceneByName_last_match_witness :
  let s0 := mkScene "scene_0x0" "Scene" ("Scene" ++ json_stringify_list1 "scene_0x0") [] in
  let s1 := mkScene "scene_0x1" "Scene" ("Scene" ++ json_stringify_list1 "scene_0x1") [] in
  scenes st_same_name = ([("scene_0x0", s0)] ++ ("scene_0x1", s1) :: [])%list /\
  getSceneByName "Scene" st_same_name = Some (lookup (id s1) (scenes st_same_name), st_same_name, []) /\
  lookup (id s1) (scenes st_same_name) = Some s1.
Proof.
  cbv zeta.
  assert (Hm : scenes st_same_name =
    ([("scene_0x0", mkScene "scene_0x0" "Scene" ("Scene" ++ json_stringify_list1 "scene_0x0") [])] ++
     ("scene_0x1", mkScene "scene_0x1" "Scene" ("Scene" ++ json_stringify_list1 "scene_0x1") []) :: [])%list)
    by (vm_compute; reflexivity).
  split; [exact Hm |]. split; [| vm_compute; reflexivity].
  exact (getSceneByName_last_match st_same_name "Scene" _ [] _ _ Hm eq_refl (Forall_nil _)).
Defined.

Lemma createScene_appends_to_scene_list_witness :
  sceneList st_default = Some ([Some "scene_0x0"], st_default, []) /\
  exists r st' tr,
    createScene "Two" noOptions st_default = Some (r, st', tr) /\
    sceneList st' = Some ([Some "scene_0x0"; Some "scene_0x1"], st', []).
Proof.
  assert (Hl : sceneList st_default = Some ([Some "scene_0x0"], st_default, []))
    by (vm_compute; reflexivity).
  split; [exact Hl |].
  apply (createScene_appends_to_scene_list st_default "Two" [Some "scene_0x0"]).
  - vm_compute. reflexivity.
  - vm_compute. intuition discriminate.
  - exact Hl.
Defined.


Lemma getSceneItemLoop_absent (iid : string) (s : state) (l : list string) :
  (forall k, In k l -> getItem k iid s = Some (None, s, [])) ->
  getSceneItemLoop iid (map Some l) s = Some (None, s, []).
Proof.
  induction l as [| k l IH]; intro H; simpl; [reflexivity |].
  rewrite (bind_some _ _ _ _ _ _ (H k (or_introl eq_refl))). cbv beta.
  rewrite IH; [reflexivity |]. intros k' Hk'. exact (H k' (or_intror Hk')).
Qed.

(** X14: [getSceneItem(id)] returns [null] when no scene of the display
    order holds an item with that id, and changes nothing. *)
Theorem getSceneItem_absent (st : state) (iid : string) :
  incl (displayOrder st) (keys (scenes st)) ->
  (forall k sk i, In k (displayOrder st) -> lookup k (scenes st) = Some sk ->
     In i (nodes sk) -> sceneItemId i <> iid) ->
  getSceneItem iid st = Some (None, st, []).
Proof.
  intros Hinc Hno. unfold getSceneItem.
  rewrite (bind_some _ _ _ _ _ _ (sceneList_all_some st Hinc)). cbv beta.
  rewrite getSceneItemLoop_absent; [reflexivity |]. intros k Hk.
  destruct (in_keys_lookup k (scenes st) (Hinc k Hk)) as [sk Hsk].
  unfold getItem. rewrite (bind_some (getSceneModel k) _ st sk st []).
  - cbv beta. unfold ret. destruct (find _ (nodes sk)) as [x |] eqn:E; [| reflexivity].
    apply find_some in E as [Hx Heq]. apply String.eqb_eq in Heq.
    exfalso. exact (Hno k sk x Hk Hsk Hx Heq).
  - unfold getSceneModel. rewrite Hsk. reflexivity.
Qed.

Lemma getSceneItem_absent_witness :
  incl (displayOrder st_nested) (keys (scenes st_nested)) /\
  getSceneItem "0x99" st_nested = Some (None, st_nested, []).
Proof.
  assert (Hinc : incl (displayOrder st_nested) (keys (scenes st_nested)))
    by (intros k Hk; vm_compute in Hk |- *; intuition).
  split; [exact Hinc |]. apply (getSceneItem_absent st_nested "0x99" Hinc).
  intros k sk i _ Hsk Hi.
  refine (Forall_lookup (fun sk => forall i, In i (nodes sk) -> sceneItemId i <> "0x99")
            (scenes st_nested) k sk _ Hsk i Hi).
  vm_compute. repeat constructor; intros j Hj; vm_compute in Hj;
    repeat (destruct Hj as [<- | Hj]; [discriminate |]); destruct Hj.
Defined.

(** X15: after a successful [removeScene(id)], the active scene is kept
    when another scene was removed; when the active scene was removed, the
    first remaining scene in key order becomes active (unless its id is
    empty); when no scene remains (a forced removal of the last one), the
    active id still names the removed scene. *)
Theorem removeScene_active_pointer (st : state) (sid : string) (force : bool) (sc : scene) :
  lookup sid (scenes st) = Some sc ->
  force = true \/ 2 <= List.length (scenes st) ->
  NoDup (displayOrder st) ->
  incl (displayOrder st) (keys (scenes st)) ->
  Forall (fun p => NoDup (map sceneItemId (nodes (snd p)))) (scenes st) ->
  exists st' tr,
    removeScene sid force st = Some (Some (set_nodes [] sc), st', tr) /\
    (activeSceneId st <> sid -> activeSceneId st' = activeSceneId st) /\
    (forall first rest, activeSceneId st = sid -> without (keys (scenes st)) sid = first :: rest ->
       first <> "" -> activeSceneId st' = first) /\
    (activeSceneId st = sid -> without (keys (scenes st)) sid = [] -> activeSceneId st' = sid).
Proof.
  intros Hs Hrem Hdo Hinc Hall.
  destruct (removeScene_run st sid force sc Hs Hrem Hdo Hinc Hall)
    as (st' & tr & E & _ & _ & _ & _ & A & _ & _).
  exists st', tr. split; [exact E |]. rewrite A. split; [| split].
  - intro Hne. apply String.eqb_neq in Hne. rewrite Hne. reflexivity.
  - intros first rest Ha Hk Hf. rewrite Ha, String.eqb_refl, Hk.
    apply String.eqb_neq in Hf. rewrite Hf. reflexivity.
  - intros Ha Hk. rewrite Ha, String.eqb_refl, Hk. reflexivity.
Qed.

Lemma removeScene_active_pointer_witness :
  exists sc, lookup "scene_0x1" (scenes st_A_active) = Some sc /\
  activeSceneId st_A_active = "scene_0x1" /\
  without (keys (scenes st_A_active)) "scene_0x1" = ["scene_0x0"; "scene_0x2"; "scene_0x3"] /\
  exists st' tr,
    removeScene "scene_0x1" false st_A_active = Some (Some (set_nodes [] sc), st', tr) /\
    activeSceneId st' = "scene_0x0".
Proof.
  destruct (lookup "scene_0x1" (scenes st_A_active)) as [sc |] eqn:L;
    [| vm_compute in L; discriminate L].
  exists sc. split; [reflexivity |].
  assert (Ha : activeSceneId st_A_active = "scene_0x1") by (vm_compute; reflexivity).
  assert (Hk : without (keys (scenes st_A_active)) "scene_0x1" = ["scene_0x0"; "scene_0x2"; "scene_0x3"])
    by (vm_compute; reflexivity).
  split; [exact Ha |]. split; [exact Hk |].
  assert (R : false = true \/ 2 <= List.length (scenes st_A_active)) by (right; vm_compute; repeat constructor).
  assert (D : NoDup (displayOrder st_A_active))
    by (vm_compute; repeat constructor; simpl; intuition discriminate).
  assert (I : incl (displayOrder st_A_active) (keys (scenes st_A_active)))
    by (intros k Hk'; vm_compute in Hk' |- *; intuition).
  assert (F : Forall (fun p => NoDup (map sceneItemId (nodes (snd p)))) (scenes st_A_active))
    by (vm_compute; repeat constructor; simpl; intuition discriminate).
  destruct (removeScene_active_pointer st_A_active "scene_0x1" false sc L R D I F)
    as (st' & tr & E & _ & H2 & _).
  exists st', tr. split; [exact E |]. exact (H2 _ _ Ha Hk ltac:(discriminate)).
Defined.
